(** * SSZ (Simple Serialize): the List sedes and the codec of py-ssz

    A shallow embedding of [ssz/sedes/list.py] and [ssz/codec.py], with the
    properties of the encoding that the specification states about them.

    Python values are an inductive type, exceptions are an error result,
    a sedes object is a record of its methods (the code is duck typed), and
    the [while] loop of [List.deserialize_segment] runs on fuel. *)

From Stdlib Require Import ZArith List Lia Bool.
From Stdlib Require Import Strings.Byte.
From stdpp Require Import base gmap strings.
Import ListNotations.

Local Open Scope Z_scope.

(** ** Python values and exceptions *)

Definition bytes := list byte.

#[local] Set Warnings "-register-all".

(** The native values that reach the codec. *)
Inductive value : Type :=
| VNone
| VBool (b : bool)
| VInt (n : Z)
| VBytes (b : bytes)
| VStr (s : string)
| VList (l : list value)
| VTuple (l : list value).

(** The exception classes the code raises (or lets through). *)
Inductive exn : Type :=
| ValueError
| TypeError
| AttributeError
| OverflowError
| SerializationError
| DeserializationError
| InvalidSedesError
| DecodingError.

(** The outcome of a call: a returned value, a raised exception, or a loop
    that has not finished within the fuel it was given. *)
Inductive result (A : Type) : Type :=
| Ok (a : A)
| Raise (e : exn)
| OutOfFuel.

Arguments Ok {A} a.
Arguments Raise {A} e.
Arguments OutOfFuel {A}.

Definition bind {A B : Type} (m : result A) (k : A -> result B) : result B :=
  match m with
  | Ok a => k a
  | Raise e => Raise e
  | OutOfFuel => OutOfFuel
  end.

Notation "'let*' p ':=' m 'in' k" := (bind m (fun p => k))
  (at level 10, p pattern, m at level 200, k at level 200, only parsing).

(** ** Bytes and integers *)

Definition byte_to_Z (b : byte) : Z := Z.of_N (Byte.to_N b).

Definition byte_of_Z (z : Z) : byte :=
  match Byte.of_N (Z.to_N (z mod 256)) with
  | Some b => b
  | None => x00
  end.

(** [len(data)] *)
Definition len {A : Type} (l : list A) : Z := Z.of_nat (length l).

(** A slice bound as Python normalises it: a negative index counts from the
    end, and the result is clamped to [0, len]. *)
Definition slice_index (n i : Z) : Z :=
  if i <? 0 then Z.max 0 (i + n) else Z.min i n.

(** [data[lo:hi]] *)
Definition slice {A : Type} (data : list A) (lo hi : Z) : list A :=
  let l := slice_index (len data) lo in
  let h := slice_index (len data) hi in
  firstn (Z.to_nat (h - l)) (skipn (Z.to_nat l) data).

Inductive byteorder : Type := big | little.

(** The [n] least significant base-256 digits of [z], least significant
    first. *)
Fixpoint le_digits (n : nat) (z : Z) : bytes :=
  match n with
  | O => []
  | S k => byte_of_Z (z mod 256) :: le_digits k (z / 256)
  end.

Fixpoint le_value (bs : bytes) : Z :=
  match bs with
  | [] => 0
  | b :: r => byte_to_Z b + 256 * le_value r
  end.

(** [z.to_bytes(length, byteorder)] for an unsigned conversion. *)
Definition to_bytes (z length : Z) (order : byteorder) : result bytes :=
  if length <? 0 then Raise ValueError
  else if z <? 0 then Raise OverflowError
  else if 2 ^ (8 * length) <=? z then Raise OverflowError
  else
    let digits := le_digits (Z.to_nat length) z in
    Ok (match order with little => digits | big => rev digits end).

(** [int.from_bytes(bs, byteorder)] *)
Definition from_bytes (bs : bytes) (order : byteorder) : Z :=
  match order with
  | little => le_value bs
  | big => le_value (rev bs)
  end.

(** ** Truth value testing and iteration *)

Definition value_truthy (v : value) : bool :=
  match v with
  | VNone => false
  | VBool b => b
  | VInt n => negb (n =? 0)
  | VBytes b => negb (len b =? 0)
  | VStr s => negb (Z.of_nat (String.length s) =? 0)
  | VList l => negb (len l =? 0)
  | VTuple l => negb (len l =? 0)
  end.

(** [isinstance(val, Iterable)] *)
Definition is_Iterable (v : value) : bool :=
  match v with
  | VBytes _ | VStr _ | VList _ | VTuple _ => true
  | VNone | VBool _ | VInt _ => false
  end.

(** [isinstance(val, (bytes, bytearray, str))] *)
Definition is_bytes_or_str (v : value) : bool :=
  match v with
  | VBytes _ | VStr _ => true
  | _ => false
  end.

Fixpoint chars (s : string) : list value :=
  match s with
  | EmptyString => []
  | String c r => VStr (String c EmptyString) :: chars r
  end.

(** The elements a [for] loop over [v] visits, in order. *)
Definition iter (v : value) : list value :=
  match v with
  | VList l | VTuple l => l
  | VBytes b => map (fun x => VInt (byte_to_Z x)) b
  | VStr s => chars s
  | VNone | VBool _ | VInt _ => []
  end.

(** [len(val)] of a value. *)
Definition value_len (v : value) : Z := len (iter v).

(** Whether [hash(v)] succeeds: lists are unhashable, and so is a tuple that
    holds one. *)
Fixpoint hashable (v : value) : bool :=
  match v with
  | VList _ => false
  | VTuple l => (fix all (xs : list value) : bool :=
                   match xs with
                   | [] => true
                   | x :: r => hashable x && all r
                   end) l
  | _ => true
  end.

(** Equality of a decoded value with the value that was encoded: scalars are
    equal exactly, sequences component by component (a list decodes as a
    tuple). *)
Fixpoint componentwise_eq (a b : value) : Prop :=
  match a with
  | VList xs | VTuple xs =>
      match b with
      | VList ys | VTuple ys =>
          (fix all (xs ys : list value) : Prop :=
             match xs, ys with
             | [], [] => True
             | x :: xr, y :: yr => componentwise_eq x y /\ all xr yr
             | _, _ => False
             end) xs ys
      | _ => False
      end
  | _ => a = b
  end.

(** ** Sedes objects *)

(** A sedes is any object with these methods. The two decoding methods take
    the fuel of the loops they may run. *)
Record Sedes : Type := mkSedes {
  serialize : value -> result bytes;
  deserialize_segment : nat -> bytes -> Z -> result (value * Z);
  deserialize : nat -> bytes -> result value
}.

(** What a caller can pass where a sedes is expected: a sedes object, or any
    other value ([None], a name, ...). *)
Inductive object : Type :=
| Val (v : value)
| Obj (s : Sedes).

(** A sedes object defines neither [__bool__] nor [__len__], hence is true. *)
Definition truthy (o : object) : bool :=
  match o with
  | Val v => value_truthy v
  | Obj _ => true
  end.

(** Method calls on an object; an object without the method raises
    [AttributeError]. *)
Definition call_serialize (o : object) (v : value) : result bytes :=
  match o with
  | Obj s => serialize s v
  | Val _ => Raise AttributeError
  end.

Definition call_deserialize_segment (o : object) (fuel : nat) (data : bytes)
    (start_index : Z) : result (value * Z) :=
  match o with
  | Obj s => deserialize_segment s fuel data start_index
  | Val _ => Raise AttributeError
  end.

Definition call_deserialize (o : object) (fuel : nat) (data : bytes)
    : result value :=
  match o with
  | Obj s => deserialize s fuel data
  | Val _ => Raise AttributeError
  end.

(** ** ssz/sedes/list.py *)

(** An instance of the class [List]: its two attributes. *)
Record ListSedes : Type := mkList {
  element_sedes : object;
  empty : object
}.

(** [List.__init__(self, element_sedes=None, empty=False)] *)
Definition List_init (element_sedes empty : object) : result ListSedes :=
  if truthy element_sedes && truthy empty then Raise ValueError
  else if negb (truthy element_sedes) && negb (truthy empty) then
    Raise ValueError
  else Ok (mkList element_sedes empty).

(** The join of [self.element_sedes.serialize(element) for element in val]. *)
Fixpoint join_serialized (es : object) (elements : list value) : result bytes :=
  match elements with
  | [] => Ok []
  | element :: rest =>
      let* b := call_serialize es element in
      let* bs := join_serialized es rest in
      Ok (b ++ bs)
  end.

(** The [while] loop of [List.deserialize_segment]. *)
Fixpoint deserialize_elements (fuel : nat) (es : object) (data : bytes)
    (element_start_index list_end_index : Z) (deserialized_list : list value)
    : result (list value) :=
  if element_start_index <? list_end_index then
    match fuel with
    | O => OutOfFuel
    | S fuel' =>
        let* (element, next_index) :=
          call_deserialize_segment es fuel' data element_start_index in
        deserialize_elements fuel' es data next_index list_end_index
          (deserialized_list ++ [element])
    end
  else Ok deserialized_list.

Section SSZ.

(** [ssz.constants.LIST_PREFIX_LENGTH]; the module is not part of the
    sources at hand, its value is a parameter. *)
Variable LIST_PREFIX_LENGTH : Z.

(** Modelled from the spec: [ssz.constants.MAX_LEN_SERIALIZED_LIST_OBJECT],
    which the specification gives as 2^(8 * LIST_PREFIX_LENGTH). *)
Definition MAX_LEN_SERIALIZED_LIST_OBJECT : Z := 2 ^ (8 * LIST_PREFIX_LENGTH).

(** [List.serialize(self, val)] *)
Definition List_serialize (self : ListSedes) (val : value) : result bytes :=
  if negb (is_Iterable val) || is_bytes_or_str val then
    Raise SerializationError
  else if truthy (empty self) && negb (value_len val =? 0) then
    Raise ValueError
  else
    let* serialized_iterable_string :=
      join_serialized (element_sedes self) (iter val) in
    if len serialized_iterable_string >=? MAX_LEN_SERIALIZED_LIST_OBJECT then
      Raise SerializationError
    else
      let* serialized_len :=
        to_bytes (len serialized_iterable_string) LIST_PREFIX_LENGTH big in
      Ok (serialized_len ++ serialized_iterable_string).

(** [List.deserialize_segment(self, data, start_index)] *)
Definition List_deserialize_segment (self : ListSedes) (fuel : nat)
    (data : bytes) (start_index : Z) : result (value * Z) :=
  if len data <? start_index + LIST_PREFIX_LENGTH then
    Raise DeserializationError
  else
    let list_length :=
      from_bytes
        (slice data start_index (start_index + LIST_PREFIX_LENGTH)) big in
    let list_end_index := start_index + LIST_PREFIX_LENGTH + list_length in
    if len data <? list_end_index then Raise DeserializationError
    else
      let* deserialized_list :=
        deserialize_elements fuel (element_sedes self) data
          (start_index + LIST_PREFIX_LENGTH) list_end_index [] in
      Ok (VTuple deserialized_list, list_end_index).

(** [List.deserialize(self, data)] *)
Definition List_deserialize (self : ListSedes) (fuel : nat) (data : bytes)
    : result value :=
  let* (deserialized_data, end_index) :=
    List_deserialize_segment self fuel data 0 in
  if negb (end_index =? len data) then Raise DeserializationError
  else Ok deserialized_data.

(** A [List] instance seen as a sedes object. *)
Definition List_object (self : ListSedes) : Sedes :=
  mkSedes (List_serialize self) (List_deserialize_segment self)
    (List_deserialize self).

(** ** Fixed-size scalar sedes *)

(** The convenience [deserialize] of a sedes: the segment decoded from index
    0 has to consume the whole input. *)
Definition deserialize_all
    (segment : nat -> bytes -> Z -> result (value * Z))
    (fuel : nat) (data : bytes) : result value :=
  let* (v, end_index) := segment fuel data 0 in
  if negb (end_index =? len data) then Raise DeserializationError
  else Ok v.

(** Modelled from the spec: the unsigned integer sedes of [ssz.sedes] (the
    module of [uint32] is not part of the sources at hand). A value is
    serialized to exactly [size] bytes, a value out of range or of another
    kind is a serialization error, and a segment with fewer than [size] bytes
    left is a deserialization error. The specification does not fix the byte
    order, so it is a parameter. *)
Definition UInt_serialize (size : Z) (order : byteorder) (v : value)
    : result bytes :=
  match v with
  | VInt n =>
      if (n <? 0) || (2 ^ (8 * size) <=? n) then Raise SerializationError
      else to_bytes n size order
  | _ => Raise SerializationError
  end.

Definition UInt_deserialize_segment (size : Z) (order : byteorder)
    (fuel : nat) (data : bytes) (start_index : Z) : result (value * Z) :=
  if len data <? start_index + size then Raise DeserializationError
  else
    Ok (VInt (from_bytes (slice data start_index (start_index + size)) order),
        start_index + size).

Definition UInt (size : Z) (order : byteorder) : Sedes :=
  mkSedes (UInt_serialize size order) (UInt_deserialize_segment size order)
    (deserialize_all (UInt_deserialize_segment size order)).

Definition uint32 (order : byteorder) : Sedes := UInt 4 order.

(** ** ssz/codec.py *)

(** Modelled from the spec: [ssz.utils.is_sedes], the capability check (an
    object that exposes the methods of a sedes). *)
Definition is_sedes (o : object) : bool :=
  match o with
  | Obj _ => true
  | Val _ => false
  end.

(** The registry of sedes by name and the inference of a sedes from a
    value are collaborators of the codec, not part of it. *)
Variable sedes_by_name : gmap string Sedes.
Variable infer_sedes : value -> result Sedes.

(** [sedes in sedes_by_name] followed by the choice of [sedes_obj]: only a
    name can be a key of the registry, and an unhashable argument makes the
    membership test raise. *)
Definition resolve (sedes : object) : result object :=
  match sedes with
  | Obj _ => Ok sedes
  | Val v =>
      if negb (hashable v) then Raise TypeError
      else
        match v with
        | VStr name =>
            match sedes_by_name !! name with
            | Some s => Ok (Obj s)
            | None => Ok sedes
            end
        | _ => Ok sedes
        end
  end.

(** [encode(obj, sedes=None)] *)
Definition encode (obj : value) (sedes : object) : result bytes :=
  let* sedes_obj :=
    (if truthy sedes then
       let* sedes_obj := resolve sedes in
       if negb (is_sedes sedes_obj) then Raise InvalidSedesError
       else Ok sedes_obj
     else
       let* s := infer_sedes obj in
       Ok (Obj s)) in
  call_serialize sedes_obj obj.

(** [decode(ssz, sedes)]; [is_bytes(ssz)] holds of a bytes value only. *)
Definition decode (fuel : nat) (ssz : value) (sedes : object)
    : result value :=
  match ssz with
  | VBytes data => call_deserialize sedes fuel data
  | _ => Raise DecodingError
  end.

(** ** The contract between a list and its element sedes *)

(** [es] serializes [v] as [bs] and, given [need] fuel, decodes [bs] as [v']
    wherever those bytes sit in the data, returning the index just after
    them. *)
Definition encodes (es : object) (need : nat) (v v' : value) (bs : bytes)
    : Prop :=
  call_serialize es v = Ok bs /\
  (forall fuel pre post, (need <= fuel)%nat ->
     call_deserialize_segment es fuel (pre ++ bs ++ post) (len pre)
     = Ok (v', len pre + len bs)) /\
  componentwise_eq v v'.

(** The elements [vs] are serialized one by one into [bss], each to at least
    one byte, and decode as [vs']. *)
Inductive elements_ok (es : object) (need : nat)
    : list value -> list value -> bytes -> Prop :=
| elements_nil : elements_ok es need [] [] []
| elements_cons v v' bs vs vs' bss :
    encodes es need v v' bs ->
    bs <> [] ->
    elements_ok es need vs vs' bss ->
    elements_ok es need (v :: vs) (v' :: vs') (bs ++ bss).

(** An element sedes decodes exactly what it serializes: a decoded segment
    is not empty, lies within the data, and is the serialization of the
    decoded value. *)
Definition exact (es : object) : Prop :=
  forall fuel data i v j,
    0 <= i ->
    call_deserialize_segment es fuel data i = Ok (v, j) ->
    i < j <= len data /\ call_serialize es v = Ok (slice data i j).

(** Every successful decode of an element moves the index forward. *)
Definition advances (es : object) : Prop :=
  forall fuel data i v j,
    call_deserialize_segment es fuel data i = Ok (v, j) -> i < j.

(** With [need data] fuel a decode of an element from [data] comes to an
    end: it returns or raises. *)
Definition settles (es : object) (need : bytes -> nat) : Prop :=
  forall fuel data i,
    0 <= i -> (need data <= fuel)%nat ->
    call_deserialize_segment es fuel data i <> OutOfFuel.

(** ** Instances *)

(** [uint32_list = List(uint32)] and [empty_list = List(empty=True)], the
    arguments left out at their defaults [None] and [False]. *)
Definition uint32_list (order : byteorder) : ListSedes :=
  mkList (Obj (uint32 order)) (Val (VBool false)).

Definition empty_list : ListSedes :=
  mkList (Val VNone) (Val (VBool true)).

(** * Properties *)

(** ** Bytes, integers and slices *)

Lemma len_app {A} (a b : list A) : len (a ++ b) = len a + len b.
Proof. unfold len. rewrite length_app. lia. Qed.

Lemma len_nonneg {A} (a : list A) : 0 <= len a.
Proof. unfold len. lia. Qed.

Lemma byte_to_Z_range b : 0 <= byte_to_Z b < 256.
Proof.
  unfold byte_to_Z. pose proof (Byte.to_N_bounded b). lia.
Qed.

Lemma byte_to_of_Z z : 0 <= z < 256 -> byte_to_Z (byte_of_Z z) = z.
Proof.
  intros Hz. unfold byte_to_Z, byte_of_Z.
  rewrite Z.mod_small by lia.
  destruct (Byte.of_N (Z.to_N z)) as [b|] eqn:E.
  - apply Byte.to_of_N in E. rewrite E. lia.
  - apply Byte.of_N_None_iff in E. lia.
Qed.

Lemma byte_of_to_Z b : byte_of_Z (byte_to_Z b) = b.
Proof.
  pose proof (byte_to_Z_range b) as Hr.
  unfold byte_of_Z. rewrite Z.mod_small by lia.
  unfold byte_to_Z. rewrite N2Z.id, Byte.of_to_N. reflexivity.
Qed.

Lemma le_digits_length n z : length (le_digits n z) = n.
Proof. revert z. induction n as [|n IH]; intros z; simpl; [|rewrite IH]; reflexivity. Qed.

Lemma le_value_digits n z :
  0 <= z -> le_value (le_digits n z) = z mod 2 ^ (8 * Z.of_nat n).
Proof.
  revert z. induction n as [|n IH]; intros z Hz.
  - simpl. rewrite Z.mod_1_r. reflexivity.
  - cbn [le_digits le_value].
    rewrite byte_to_of_Z by (apply Z.mod_pos_bound; lia).
    rewrite IH by (apply Z.div_pos; lia).
    replace (8 * Z.of_nat (S n)) with (8 + 8 * Z.of_nat n) by lia.
    rewrite Z.pow_add_r by lia.
    change (2 ^ 8) with 256.
    assert (0 < 2 ^ (8 * Z.of_nat n)) by (apply Z.pow_pos_nonneg; lia).
    rewrite (Z.rem_mul_r z 256 (2 ^ (8 * Z.of_nat n))) by lia.
    reflexivity.
Qed.

Lemma le_value_range bs : 0 <= le_value bs < 2 ^ (8 * len bs).
Proof.
  induction bs as [|b r IH].
  - vm_compute. split; [discriminate | reflexivity].
  - cbn [le_value]. pose proof (byte_to_Z_range b).
    unfold len in *. cbn [length].
    replace (8 * Z.of_nat (S (length r))) with (8 + 8 * Z.of_nat (length r)) by lia.
    rewrite Z.pow_add_r by lia. change (2 ^ 8) with 256.
    assert (0 < 2 ^ (8 * Z.of_nat (length r))) by (apply Z.pow_pos_nonneg; lia).
    nia.
Qed.

Lemma le_digits_value bs : le_digits (length bs) (le_value bs) = bs.
Proof.
  induction bs as [|b r IH]; [reflexivity|].
  cbn [length le_digits le_value].
  pose proof (byte_to_Z_range b) as Hb.
  replace ((byte_to_Z b + 256 * le_value r) mod 256) with (byte_to_Z b).
  2:{ rewrite (Z.mul_comm 256), Z.mod_add by lia. rewrite Z.mod_small; lia. }
  replace ((byte_to_Z b + 256 * le_value r) / 256) with (le_value r).
  2:{ rewrite (Z.mul_comm 256), Z.div_add by lia. rewrite Z.div_small; lia. }
  rewrite byte_of_to_Z, IH. reflexivity.
Qed.

Lemma to_bytes_Ok z n order bs :
  to_bytes z n order = Ok bs ->
  0 <= n /\ 0 <= z < 2 ^ (8 * n) /\ len bs = n /\ from_bytes bs order = z.
Proof.
  unfold to_bytes.
  destruct (Z.ltb_spec n 0); [discriminate|].
  destruct (Z.ltb_spec z 0); [discriminate|].
  destruct (Z.leb_spec (2 ^ (8 * n)) z); [discriminate|].
  intros [= <-].
  assert (Hv : le_value (le_digits (Z.to_nat n) z) = z).
  { rewrite le_value_digits by lia. rewrite Z2Nat.id by lia.
    apply Z.mod_small. lia. }
  repeat split; try lia.
  - unfold len. destruct order; rewrite ?length_rev, le_digits_length; lia.
  - destruct order; unfold from_bytes; rewrite ?rev_involutive; exact Hv.
Qed.

Lemma to_bytes_fits z n order :
  0 <= n -> 0 <= z < 2 ^ (8 * n) -> exists bs, to_bytes z n order = Ok bs.
Proof.
  intros Hn Hz. unfold to_bytes.
  destruct (Z.ltb_spec n 0); [lia|].
  destruct (Z.ltb_spec z 0); [lia|].
  destruct (Z.leb_spec (2 ^ (8 * n)) z); [lia|].
  eexists. reflexivity.
Qed.

Lemma slice_middle {A} (pre bs post : list A) n :
  n = len bs ->
  slice (pre ++ bs ++ post) (len pre) (len pre + n) = bs.
Proof.
  intros ->. unfold slice, slice_index.
  pose proof (len_nonneg pre). pose proof (len_nonneg bs). pose proof (len_nonneg post).
  rewrite !len_app.
  destruct (Z.ltb_spec (len pre) 0); [lia|].
  destruct (Z.ltb_spec (len pre + len bs) 0); [lia|].
  rewrite !Z.min_l by lia.
  replace (len pre + len bs - len pre) with (len bs) by lia.
  unfold len. rewrite !Nat2Z.id.
  rewrite drop_app_length, take_app_length. reflexivity.
Qed.

Lemma slice_prefix {A} (bs post : list A) n :
  n = len bs -> slice (bs ++ post) 0 n = bs.
Proof.
  intros Hn. apply (slice_middle [] bs post n Hn).
Qed.

Lemma slice_suffix {A} (pre bs : list A) :
  slice (pre ++ bs) (len pre) (len (pre ++ bs)) = bs.
Proof.
  pose proof (slice_middle pre bs [] (len bs) eq_refl) as H.
  rewrite app_nil_r in H. rewrite len_app. exact H.
Qed.

Lemma componentwise_eq_elements es need vs vs' bss :
  elements_ok es need vs vs' bss ->
  componentwise_eq (VList vs) (VTuple vs') /\
  componentwise_eq (VTuple vs) (VTuple vs').
Proof.
  induction 1 as [|v v' bs vs vs' bss Hv Hne Hrest [IH1 IH2]].
  - simpl. auto.
  - destruct Hv as (_ & _ & Heq). simpl in *. auto.
Qed.

Lemma join_serialized_ok es need vs vs' bss :
  elements_ok es need vs vs' bss -> join_serialized es vs = Ok bss.
Proof.
  induction 1 as [|v v' bs vs vs' bss Hv Hne Hrest IH]; [reflexivity|].
  destruct Hv as (Hs & _). simpl. rewrite Hs. simpl. rewrite IH. reflexivity.
Qed.

Lemma len_pos_of_nonempty {A} (l : list A) : l <> [] -> 0 < len l.
Proof. destruct l; [congruence|]. unfold len. simpl. lia. Qed.

Lemma deserialize_elements_ok es need vs vs' bss :
  elements_ok es need vs vs' bss ->
  forall fuel pre post acc,
    (length vs + need <= fuel)%nat ->
    deserialize_elements fuel es (pre ++ bss ++ post)
      (len pre) (len pre + len bss) acc
    = Ok (acc ++ vs').
Proof.
  induction 1 as [|v v' bs vs vs' bss Hv Hne Hrest IH];
    intros fuel pre post acc Hfuel.
  - destruct fuel; simpl;
      (destruct (Z.ltb_spec (len pre) (len pre + len (@nil byte)));
       [unfold len in *; simpl in *; lia | now rewrite app_nil_r]).
  - destruct Hv as (_ & Hseg & _).
    pose proof (len_pos_of_nonempty bs Hne) as Hpos.
    pose proof (len_nonneg bss) as Hbss.
    destruct fuel as [|fuel]; [simpl in Hfuel; lia|].
    cbn [deserialize_elements].
    destruct (Z.ltb_spec (len pre) (len pre + len (bs ++ bss)));
      [|rewrite len_app in *; lia].
    rewrite <- (app_assoc bs bss post).
    rewrite Hseg by (simpl in Hfuel; lia).
    cbn [bind].
    specialize (IH fuel (pre ++ bs) post (acc ++ [v'])).
    rewrite !len_app in *. rewrite <- app_assoc in IH.
    rewrite Z.add_assoc. rewrite IH by (simpl in Hfuel; lia).
    rewrite <- app_assoc. reflexivity.
Qed.

Lemma pow_bound_nonneg n z : 0 <= z < 2 ^ (8 * n) -> 0 <= n.
Proof.
  intros Hz. destruct (Z.ltb_spec n 0) as [Hneg|]; [|assumption].
  rewrite Z.pow_neg_r in Hz by lia. lia.
Qed.


(** What [List.serialize] returns once its two guards on [val] have let
    the value through. *)
Lemma List_serialize_guarded self val :
  is_Iterable val = true ->
  is_bytes_or_str val = false ->
  truthy (empty self) = false \/ value_len val = 0 ->
  List_serialize self val =
    (let* s := join_serialized (element_sedes self) (iter val) in
     if len s >=? MAX_LEN_SERIALIZED_LIST_OBJECT then Raise SerializationError
     else
       let* prefix := to_bytes (len s) LIST_PREFIX_LENGTH big in
       Ok (prefix ++ s)).
Proof.
  intros Hit Hbs Hempty. unfold List_serialize.
  rewrite Hit, Hbs. cbn [negb orb].
  destruct Hempty as [-> | ->]; [reflexivity|].
  rewrite Z.eqb_refl, andb_false_r. reflexivity.
Qed.

(** Every successful [List.serialize] is a prefix followed by the joined
    element encodings. *)
Lemma List_serialize_Ok self val data :
  List_serialize self val = Ok data ->
  exists prefix s,
    data = prefix ++ s /\
    join_serialized (element_sedes self) (iter val) = Ok s /\
    to_bytes (len s) LIST_PREFIX_LENGTH big = Ok prefix /\
    len s < MAX_LEN_SERIALIZED_LIST_OBJECT.
Proof.
  unfold List_serialize.
  destruct (negb (is_Iterable val) || is_bytes_or_str val); [discriminate|].
  destruct (truthy (empty self) && negb (value_len val =? 0));
    [discriminate|].
  destruct (join_serialized (element_sedes self) (iter val)) as [s| |];
    cbn [bind]; try discriminate.
  destruct (Z.geb_spec (len s) MAX_LEN_SERIALIZED_LIST_OBJECT); [discriminate|].
  destruct (to_bytes (len s) LIST_PREFIX_LENGTH big) as [prefix| |] eqn:E;
    cbn [bind]; try discriminate.
  intros [= <-]. exists prefix, s. auto.
Qed.

(** The two bounds checks of [List.deserialize_segment] pass on data that
    holds a serialized list at [len pre], and the loop is entered with the
    end index of that list. *)
Lemma List_deserialize_segment_framed self fuel pre prefix s post :
  to_bytes (len s) LIST_PREFIX_LENGTH big = Ok prefix ->
  List_deserialize_segment self fuel (pre ++ (prefix ++ s) ++ post) (len pre)
  = (let* l :=
       deserialize_elements fuel (element_sedes self)
         ((pre ++ prefix) ++ s ++ post)
         (len (pre ++ prefix)) (len (pre ++ prefix) + len s) [] in
     Ok (VTuple l, len pre + len (prefix ++ s))).
Proof.
  intros Hp. apply to_bytes_Ok in Hp as (Hn & Hz & Hlen & Hval).
  unfold List_deserialize_segment.
  pose proof (len_nonneg pre). pose proof (len_nonneg post).
  replace (pre ++ (prefix ++ s) ++ post) with (pre ++ prefix ++ (s ++ post))
    by (now rewrite <- !app_assoc).
  rewrite (slice_middle pre prefix (s ++ post)) by congruence.
  rewrite Hval.
  replace (pre ++ prefix ++ s ++ post) with ((pre ++ prefix) ++ s ++ post)
    by (now rewrite <- !app_assoc).
  rewrite !len_app.
  destruct (Z.ltb_spec (len pre + len prefix + (len s + len post))
              (len pre + LIST_PREFIX_LENGTH)); [lia|].
  destruct (Z.ltb_spec (len pre + len prefix + (len s + len post))
              (len pre + LIST_PREFIX_LENGTH + len s)); [lia|].
  rewrite Hlen. replace (len pre + LIST_PREFIX_LENGTH + len s)
    with (len pre + (LIST_PREFIX_LENGTH + len s)) by lia.
  rewrite <- ?Z.add_assoc. reflexivity.
Qed.

(** A list sedes meets the contract of an element sedes whenever its own
    element sedes does: list sedes nest. *)
Lemma List_encodes self need vs vs' bss val :
  truthy (empty self) = false \/ vs = [] ->
  val = VList vs \/ val = VTuple vs ->
  elements_ok (element_sedes self) need vs vs' bss ->
  len bss < MAX_LEN_SERIALIZED_LIST_OBJECT ->
  exists prefix,
    to_bytes (len bss) LIST_PREFIX_LENGTH big = Ok prefix /\
    encodes (Obj (List_object self)) (length vs + need) val (VTuple vs')
      (prefix ++ bss).
Proof.
  intros Hempty Hval Hes Hmax.
  pose proof (len_nonneg bss) as Hb.
  assert (Hn : 0 <= LIST_PREFIX_LENGTH)
    by (apply (pow_bound_nonneg _ (len bss)); unfold MAX_LEN_SERIALIZED_LIST_OBJECT in Hmax; lia).
  destruct (to_bytes_fits (len bss) LIST_PREFIX_LENGTH big Hn) as [prefix Hp].
  { unfold MAX_LEN_SERIALIZED_LIST_OBJECT in Hmax. lia. }
  exists prefix. split; [exact Hp|].
  assert (Hiter : iter val = vs) by (destruct Hval; subst; reflexivity).
  split; [|split].
  - cbn [call_serialize List_object serialize].
    rewrite List_serialize_guarded.
    + rewrite Hiter, (join_serialized_ok _ _ _ _ _ Hes). cbn [bind].
      destruct (Z.geb_spec (len bss) MAX_LEN_SERIALIZED_LIST_OBJECT); [lia|].
      rewrite Hp. reflexivity.
    + destruct Hval; subst; reflexivity.
    + destruct Hval; subst; reflexivity.
    + destruct Hempty as [He | ->]; [auto|].
      right. unfold value_len. rewrite Hiter. reflexivity.
  - intros fuel pre post Hfuel.
    cbn [call_deserialize_segment List_object deserialize_segment].
    rewrite (List_deserialize_segment_framed _ _ _ _ _ _ Hp).
    rewrite (deserialize_elements_ok _ _ _ _ _ Hes) by exact Hfuel.
    reflexivity.
  - destruct (componentwise_eq_elements _ _ _ _ _ Hes).
    destruct Hval; subst; assumption.
Qed.


(** The fixed-width unsigned integers meet the contract of an element
    sedes. *)
Lemma UInt_encodes size order n bs :
  0 < size ->
  to_bytes n size order = Ok bs ->
  encodes (Obj (UInt size order)) 0 (VInt n) (VInt n) bs /\ bs <> [].
Proof.
  intros Hs Hbs.
  pose proof (to_bytes_Ok _ _ _ _ Hbs) as (_ & Hn & Hlen & Hval).
  split; [split; [|split]|].
  - cbn. unfold UInt_serialize.
    destruct (Z.ltb_spec n 0); [lia|].
    destruct (Z.leb_spec (2 ^ (8 * size)) n); [lia|]. exact Hbs.
  - intros fuel pre post _. cbn. unfold UInt_deserialize_segment.
    pose proof (len_nonneg post).
    rewrite !len_app.
    destruct (Z.ltb_spec (len pre + (len bs + len post)) (len pre + size));
      [lia|].
    rewrite slice_middle by congruence.
    rewrite Hval, Hlen. reflexivity.
  - reflexivity.
  - intros ->. unfold len in Hlen. simpl in Hlen. lia.
Qed.

(** With an explicit sedes object, [encode] is its [serialize]. *)
Lemma encode_with_sedes obj s : encode obj (Obj s) = serialize s obj.
Proof. reflexivity. Qed.

(** ** Round trip *)

(** C1: decoding the encoding of a value with the same list sedes gives the
    value back, component by component and in order (the list comes back as
    a tuple), for every element sedes that round-trips its own elements; in
    particular [1, 2, 3] encoded and decoded with a list of uint32 is
    (1, 2, 3), and an unsigned integer comes back exactly. *)
Theorem list_roundtrip :
  (forall self need vs vs' bss val fuel,
     truthy (empty self) = false \/ vs = [] ->
     val = VList vs \/ val = VTuple vs ->
     elements_ok (element_sedes self) need vs vs' bss ->
     len bss < MAX_LEN_SERIALIZED_LIST_OBJECT ->
     (length vs + need <= fuel)%nat ->
     exists data,
       encode val (Obj (List_object self)) = Ok data /\
       decode fuel (VBytes data) (Obj (List_object self)) = Ok (VTuple vs') /\
       componentwise_eq val (VTuple vs')) /\
  (forall order fuel,
     1 <= LIST_PREFIX_LENGTH -> (3 <= fuel)%nat ->
     exists data,
       encode (VList [VInt 1; VInt 2; VInt 3])
         (Obj (List_object (uint32_list order))) = Ok data /\
       decode fuel (VBytes data) (Obj (List_object (uint32_list order)))
       = Ok (VTuple [VInt 1; VInt 2; VInt 3])) /\
  (forall size order n fuel,
     0 < size -> 0 <= n < 2 ^ (8 * size) ->
     exists data,
       encode (VInt n) (Obj (UInt size order)) = Ok data /\
       decode fuel (VBytes data) (Obj (UInt size order)) = Ok (VInt n)).
Proof.
  assert (General : forall self need vs vs' bss val fuel,
     truthy (empty self) = false \/ vs = [] ->
     val = VList vs \/ val = VTuple vs ->
     elements_ok (element_sedes self) need vs vs' bss ->
     len bss < MAX_LEN_SERIALIZED_LIST_OBJECT ->
     (length vs + need <= fuel)%nat ->
     exists data,
       encode val (Obj (List_object self)) = Ok data /\
       decode fuel (VBytes data) (Obj (List_object self)) = Ok (VTuple vs') /\
       componentwise_eq val (VTuple vs')).
  { intros self need vs vs' bss val fuel Hempty Hval Hes Hmax Hfuel.
    destruct (List_encodes self need vs vs' bss val Hempty Hval Hes Hmax)
      as (prefix & Hp & Hser & Hseg & Heq).
    exists (prefix ++ bss). split; [|split].
    - rewrite encode_with_sedes. exact Hser.
    - specialize (Hseg fuel [] [] Hfuel).
      cbn [decode call_deserialize List_object deserialize].
      unfold List_deserialize.
      cbn [call_deserialize_segment List_object deserialize_segment] in Hseg.
      rewrite app_nil_l, app_nil_r in Hseg.
      change (len (@nil byte)) with 0 in Hseg. rewrite Hseg.
      cbn [bind]. rewrite Z.add_0_l, Z.eqb_refl. reflexivity.
    - exact Heq. }
  split; [exact General|].
  split.
  2:{ intros size order n fuel Hsize Hn.
      destruct (to_bytes_fits n size order) as [bs Hbs]; [lia|exact Hn|].
      destruct (UInt_encodes size order n bs Hsize Hbs) as [(Hs & Hd & _) _].
      exists bs. split; [exact Hs|].
      specialize (Hd fuel [] [] (Nat.le_0_l fuel)).
      cbn [call_deserialize_segment] in Hd.
      rewrite app_nil_l, app_nil_r in Hd. change (len (@nil byte)) with 0 in Hd.
      cbn [decode call_deserialize UInt deserialize]. unfold deserialize_all.
      cbn [UInt deserialize_segment] in Hd. rewrite Hd. cbn [bind].
      rewrite Z.add_0_l, Z.eqb_refl. reflexivity. }
  intros order fuel Hn Hfuel.
  assert (Hel : forall n, 0 <= n < 256 ->
            exists bs, to_bytes n 4 order = Ok bs /\ len bs = 4).
  { intros n Hn'. destruct (to_bytes_fits n 4 order) as [bs Hbs]; [lia|simpl; lia|].
    exists bs. split; [exact Hbs|]. now apply to_bytes_Ok in Hbs. }
  destruct (Hel 1) as (b1 & H1 & L1); [lia|].
  destruct (Hel 2) as (b2 & H2 & L2); [lia|].
  destruct (Hel 3) as (b3 & H3 & L3); [lia|].
  destruct (General (uint32_list order) 0%nat
              [VInt 1; VInt 2; VInt 3] [VInt 1; VInt 2; VInt 3]
              (b1 ++ b2 ++ b3 ++ []) (VList [VInt 1; VInt 2; VInt 3]) fuel)
    as (data & Henc & Hdec & _).
  - left. reflexivity.
  - left. reflexivity.
  - destruct (UInt_encodes 4 order 1 b1) as [E1 N1]; [lia|assumption|].
    destruct (UInt_encodes 4 order 2 b2) as [E2 N2]; [lia|assumption|].
    destruct (UInt_encodes 4 order 3 b3) as [E3 N3]; [lia|assumption|].
    apply elements_cons; [exact E1|exact N1|].
    apply elements_cons; [exact E2|exact N2|].
    apply elements_cons; [exact E3|exact N3|].
    apply elements_nil.
  - rewrite !len_app, L1, L2, L3. change (len (@nil byte)) with 0.
    unfold MAX_LEN_SERIALIZED_LIST_OBJECT.
    assert (2 ^ 8 <= 2 ^ (8 * LIST_PREFIX_LENGTH))
      by (apply Z.pow_le_mono_r; lia).
    change (2 ^ 8) with 256 in *. lia.
  - simpl. lia.
  - exists data. auto.
Qed.

(** ** The length prefix *)

(** C4: the first LIST_PREFIX_LENGTH bytes of a serialized list, read as a
    big-endian unsigned integer, are the number of bytes that follow, which
    are the joined element encodings: a count of bytes, not of elements. *)
Theorem list_prefix_is_byte_length self val data :
  List_serialize self val = Ok data ->
  exists elements_data,
    join_serialized (element_sedes self) (iter val) = Ok elements_data /\
    len (slice data 0 LIST_PREFIX_LENGTH) = LIST_PREFIX_LENGTH /\
    slice data LIST_PREFIX_LENGTH (len data) = elements_data /\
    from_bytes (slice data 0 LIST_PREFIX_LENGTH) big
    = len (slice data LIST_PREFIX_LENGTH (len data)).
Proof.
  intros Hser.
  destruct (List_serialize_Ok _ _ _ Hser) as (prefix & s & -> & Hjoin & Hp & _).
  apply to_bytes_Ok in Hp as (_ & _ & Hlen & Hval).
  exists s.
  rewrite (slice_prefix prefix s LIST_PREFIX_LENGTH) by congruence.
  assert (Hrest : slice (prefix ++ s) LIST_PREFIX_LENGTH (len (prefix ++ s)) = s)
    by (rewrite <- Hlen; apply slice_suffix).
  rewrite Hrest. auto.
Qed.

(** ** Malformed input *)

Lemma List_deserialize_Raise self fuel data e :
  List_deserialize_segment self fuel data 0 = Raise e ->
  List_deserialize self fuel data = Raise e.
Proof. intros H. unfold List_deserialize. rewrite H. reflexivity. Qed.

Lemma List_deserialize_short_prefix self fuel data start_index :
  len data - start_index < LIST_PREFIX_LENGTH ->
  List_deserialize_segment self fuel data start_index
  = Raise DeserializationError.
Proof.
  intros H. unfold List_deserialize_segment.
  destruct (Z.ltb_spec (len data) (start_index + LIST_PREFIX_LENGTH));
    [reflexivity|lia].
Qed.

Lemma List_deserialize_short_data self fuel data start_index :
  len data <
    start_index + LIST_PREFIX_LENGTH +
    from_bytes (slice data start_index (start_index + LIST_PREFIX_LENGTH)) big ->
  List_deserialize_segment self fuel data start_index
  = Raise DeserializationError.
Proof.
  intros H. unfold List_deserialize_segment.
  destruct (Z.ltb_spec (len data) (start_index + LIST_PREFIX_LENGTH));
    [reflexivity|].
  match goal with |- (if ?c then _ else _) = _ =>
    destruct c eqn:E end; [reflexivity|].
  apply Z.ltb_ge in E. lia.
Qed.

(** C5: [List.deserialize_segment] raises a deserialization error when
    fewer than LIST_PREFIX_LENGTH bytes remain at the start index and when
    the data ends before the end index its length prefix declares; so every
    proper prefix of a serialized list is rejected with that error, no
    partial list is returned. *)
Theorem truncated_list_is_rejected :
  (forall self fuel data start_index,
     len data - start_index < LIST_PREFIX_LENGTH ->
     List_deserialize_segment self fuel data start_index
     = Raise DeserializationError) /\
  (forall self fuel data start_index,
     len data <
       start_index + LIST_PREFIX_LENGTH +
       from_bytes
         (slice data start_index (start_index + LIST_PREFIX_LENGTH)) big ->
     List_deserialize_segment self fuel data start_index
     = Raise DeserializationError) /\
  (forall self val data n fuel,
     List_serialize self val = Ok data ->
     (n < length data)%nat ->
     List_deserialize self fuel (firstn n data) = Raise DeserializationError /\
     decode fuel (VBytes (firstn n data)) (Obj (List_object self))
     = Raise DeserializationError).
Proof.
  split; [exact List_deserialize_short_prefix|].
  split; [exact List_deserialize_short_data|].
  intros self val data n fuel Hser Hn.
  assert (H : List_deserialize self fuel (firstn n data)
              = Raise DeserializationError); [|split; exact H].
  apply List_deserialize_Raise.
  destruct (List_serialize_Ok _ _ _ Hser) as (prefix & s & -> & _ & Hp & _).
  apply to_bytes_Ok in Hp as (Hpos & _ & Hlen & Hval).
  rewrite length_app in Hn.
  destruct (Nat.lt_ge_cases n (length prefix)) as [Hshort|Hlong].
  - apply List_deserialize_short_prefix.
    unfold len in *. rewrite length_take. rewrite length_app. lia.
  - apply List_deserialize_short_data.
    rewrite take_app, (take_ge prefix n) by lia.
    rewrite Z.add_0_l, (slice_prefix prefix _ LIST_PREFIX_LENGTH) by congruence.
    rewrite Hval, len_app. unfold len in *. rewrite length_take. lia.
Qed.

(** C6: [List.deserialize] decodes the segment at index 0 and raises a
    deserialization error whenever the end index it gets back is not the
    length of the data; hence a serialized list followed by any extra bytes
    is never decoded: it is rejected with that error as soon as the segment
    itself decodes, which it does when the element sedes keeps its
    contract. *)
Theorem trailing_bytes_are_rejected :
  (forall self fuel data,
     (forall v end_index,
        List_deserialize_segment self fuel data 0 = Ok (v, end_index) ->
        end_index <> len data ->
        List_deserialize self fuel data = Raise DeserializationError) /\
     (forall v end_index,
        List_deserialize_segment self fuel data 0 = Ok (v, end_index) ->
        end_index = len data ->
        List_deserialize self fuel data = Ok v) /\
     (forall e,
        List_deserialize_segment self fuel data 0 = Raise e ->
        List_deserialize self fuel data = Raise e)) /\
  (forall self val data extra,
     List_serialize self val = Ok data ->
     extra <> [] ->
     (forall fuel v, List_deserialize self fuel (data ++ extra) <> Ok v) /\
     (forall fuel v end_index,
        List_deserialize_segment self fuel (data ++ extra) 0
        = Ok (v, end_index) ->
        List_deserialize self fuel (data ++ extra)
        = Raise DeserializationError) /\
     (forall need vs' bss fuel,
        elements_ok (element_sedes self) need (iter val) vs' bss ->
        (length (iter val) + need <= fuel)%nat ->
        List_deserialize self fuel (data ++ extra)
        = Raise DeserializationError)).
Proof.
  split.
  - intros self fuel data. unfold List_deserialize.
    split; [|split].
    + intros v end_index -> Hne. cbn [bind].
      destruct (Z.eqb_spec end_index (len data)); [contradiction|reflexivity].
    + intros v end_index -> ->. cbn [bind]. rewrite Z.eqb_refl. reflexivity.
    + intros e ->. reflexivity.
  - intros self val data extra Hser Hextra.
    destruct (List_serialize_Ok _ _ _ Hser) as (prefix & s & -> & Hjoin & Hp & _).
    pose proof (len_pos_of_nonempty extra Hextra) as Hpos.
    pose proof (List_deserialize_segment_framed self) as Hframe.
    assert (Hseg : forall fuel v end_index,
              List_deserialize_segment self fuel ((prefix ++ s) ++ extra) 0
              = Ok (v, end_index) ->
              List_deserialize self fuel ((prefix ++ s) ++ extra)
              = Raise DeserializationError).
    { intros fuel v end_index Hok. unfold List_deserialize. rewrite Hok.
      cbn [bind].
      specialize (Hframe fuel [] prefix s extra Hp).
      rewrite app_nil_l in Hframe. change (len (@nil byte)) with 0 in Hframe.
      rewrite Hok in Hframe.
      destruct (deserialize_elements _ _ _ _ _ _) as [l| |]; cbn [bind] in Hframe;
        try discriminate.
      injection Hframe as _ ->.
      rewrite !len_app.
      match goal with
      | |- (if negb (?a =? ?b) then _ else _) = _ =>
          destruct (Z.eqb_spec a b); [lia|reflexivity]
      end. }
    split; [|split].
    + intros fuel v Hok. unfold List_deserialize in Hok.
      destruct (List_deserialize_segment self fuel ((prefix ++ s) ++ extra) 0)
        as [[v0 e0]| |] eqn:E; cbn [bind] in Hok; try discriminate.
      pose proof (Hseg fuel v0 e0 E) as Hr.
      unfold List_deserialize in Hr. rewrite E in Hr. cbn [bind] in Hr.
      congruence.
    + exact Hseg.
    + intros need vs' bss fuel Hes Hfuel.
      pose proof (join_serialized_ok _ _ _ _ _ Hes) as Hj.
      rewrite Hjoin in Hj. injection Hj as <-.
      specialize (Hframe fuel [] prefix s extra Hp).
      rewrite app_nil_l in Hframe. change (len (@nil byte)) with 0 in Hframe.
      rewrite (deserialize_elements_ok _ _ _ _ _ Hes) in Hframe by exact Hfuel.
      cbn [bind] in Hframe. exact (Hseg fuel _ _ Hframe).
Qed.

(** ** The size limit *)

(** C7: once the elements are serialized, [List.serialize] raises a
    serialization error exactly when their joined length reaches
    MAX_LEN_SERIALIZED_LIST_OBJECT; below the limit it returns the prefix
    followed by all of the element data, nothing is cut off. *)
Theorem list_length_limit self val s :
  is_Iterable val = true ->
  is_bytes_or_str val = false ->
  truthy (empty self) = false \/ value_len val = 0 ->
  join_serialized (element_sedes self) (iter val) = Ok s ->
  (MAX_LEN_SERIALIZED_LIST_OBJECT <= len s ->
   List_serialize self val = Raise SerializationError) /\
  (len s < MAX_LEN_SERIALIZED_LIST_OBJECT ->
   exists prefix,
     len prefix = LIST_PREFIX_LENGTH /\
     from_bytes prefix big = len s /\
     List_serialize self val = Ok (prefix ++ s)).
Proof.
  intros Hit Hbs Hempty Hjoin.
  rewrite (List_serialize_guarded self val Hit Hbs Hempty), Hjoin.
  cbn [bind]. split; intros Hlen.
  - destruct (Z.geb_spec (len s) MAX_LEN_SERIALIZED_LIST_OBJECT);
      [reflexivity|lia].
  - destruct (Z.geb_spec (len s) MAX_LEN_SERIALIZED_LIST_OBJECT); [lia|].
    pose proof (len_nonneg s) as Hs.
    unfold MAX_LEN_SERIALIZED_LIST_OBJECT in Hlen.
    assert (Hn : 0 <= LIST_PREFIX_LENGTH)
      by (apply (pow_bound_nonneg _ (len s)); lia).
    destruct (to_bytes_fits (len s) LIST_PREFIX_LENGTH big Hn) as [prefix Hp];
      [lia|].
    rewrite Hp. cbn [bind]. exists prefix.
    apply to_bytes_Ok in Hp as (_ & _ & Hl & Hv). auto.
Qed.

(** ** The empty list sedes *)

Lemma le_digits_zero n : le_digits n 0 = repeat x00 n.
Proof.
  induction n as [|n IH]; [reflexivity|].
  cbn [le_digits repeat]. change (0 / 256) with 0. rewrite IH. reflexivity.
Qed.

Lemma rev_repeat_same {A} (x : A) n : rev (repeat x n) = repeat x n.
Proof.
  induction n as [|n IH]; [reflexivity|].
  simpl. rewrite IH. symmetry. apply repeat_cons.
Qed.

Lemma to_bytes_zero n :
  0 <= n -> to_bytes 0 n big = Ok (repeat x00 (Z.to_nat n)).
Proof.
  intros Hn. unfold to_bytes.
  destruct (Z.ltb_spec n 0); [lia|]. cbn [Z.ltb Z.compare].
  assert (0 < 2 ^ (8 * n)) by (apply Z.pow_pos_nonneg; lia).
  destruct (Z.leb_spec (2 ^ (8 * n)) 0); [lia|].
  now rewrite le_digits_zero, rev_repeat_same.
Qed.

(** C8: a list sedes constructed with [empty=True] serializes the empty
    collection to LIST_PREFIX_LENGTH zero bytes, raises a ValueError on
    every non-empty list or tuple, and deserializes those zero bytes to the
    empty tuple. *)
Theorem empty_list_sentinel element_sedes self :
  0 <= LIST_PREFIX_LENGTH ->
  List_init element_sedes (Val (VBool true)) = Ok self ->
  len (repeat x00 (Z.to_nat LIST_PREFIX_LENGTH)) = LIST_PREFIX_LENGTH /\
  List_serialize self (VList [])
  = Ok (repeat x00 (Z.to_nat LIST_PREFIX_LENGTH)) /\
  List_serialize self (VTuple [])
  = Ok (repeat x00 (Z.to_nat LIST_PREFIX_LENGTH)) /\
  (forall v vs,
     List_serialize self (VList (v :: vs)) = Raise ValueError /\
     List_serialize self (VTuple (v :: vs)) = Raise ValueError) /\
  (forall fuel,
     List_deserialize self fuel (repeat x00 (Z.to_nat LIST_PREFIX_LENGTH))
     = Ok (VTuple [])).
Proof.
  intros Hn Hinit. unfold List_init in Hinit. cbn [truthy value_truthy] in Hinit.
  rewrite andb_true_r, andb_false_r in Hinit.
  destruct (truthy element_sedes) eqn:Hes; [discriminate|].
  injection Hinit as <-.
  pose proof (to_bytes_zero LIST_PREFIX_LENGTH Hn) as Hz.
  assert (Hlen : len (repeat x00 (Z.to_nat LIST_PREFIX_LENGTH))
                 = LIST_PREFIX_LENGTH)
    by (unfold len; rewrite repeat_length; lia).
  assert (Hmax : 0 < MAX_LEN_SERIALIZED_LIST_OBJECT)
    by (apply Z.pow_pos_nonneg; lia).
  assert (Hser : forall val, val = VList [] \/ val = VTuple [] ->
            List_serialize (mkList element_sedes (Val (VBool true))) val
            = Ok (repeat x00 (Z.to_nat LIST_PREFIX_LENGTH))).
  { intros val Hval. rewrite List_serialize_guarded.
    - replace (iter val) with (@nil value) by (destruct Hval; subst; reflexivity).
      cbn [join_serialized bind]. change (len (@nil byte)) with 0.
      destruct (Z.geb_spec 0 MAX_LEN_SERIALIZED_LIST_OBJECT); [lia|].
      rewrite Hz. cbn [bind]. apply f_equal, app_nil_r.
    - destruct Hval; subst; reflexivity.
    - destruct Hval; subst; reflexivity.
    - right. destruct Hval; subst; reflexivity. }
  split; [exact Hlen|].
  split; [apply Hser; auto|].
  split; [apply Hser; auto|].
  split.
  - intros v vs. split; reflexivity.
  - intros fuel.
    pose proof (List_deserialize_segment_framed
                  (mkList element_sedes (Val (VBool true))) fuel [] _ [] [] Hz)
      as Hframe.
    rewrite !app_nil_r, app_nil_l in Hframe.
    change (len (@nil byte)) with 0 in Hframe.
    unfold List_deserialize. rewrite Hframe.
    rewrite Z.add_0_r.
    destruct fuel; cbn [deserialize_elements];
      rewrite Z.ltb_irrefl; cbn [bind];
      rewrite Z.add_0_l, Z.eqb_refl; reflexivity.
Qed.

(** ** Construction *)

(** C9: constructing a list sedes raises a ValueError when both an element
    sedes and [empty] are given and when neither is, and succeeds when
    exactly one is; a constructed list sedes has exactly one of them set. *)
Theorem list_construction element_sedes_arg empty_arg :
  (truthy element_sedes_arg = truthy empty_arg ->
   List_init element_sedes_arg empty_arg = Raise ValueError) /\
  (truthy element_sedes_arg <> truthy empty_arg ->
   List_init element_sedes_arg empty_arg
   = Ok (mkList element_sedes_arg empty_arg)) /\
  (forall self,
     List_init element_sedes_arg empty_arg = Ok self ->
     truthy (element_sedes self) = negb (truthy (empty self))) /\
  (forall s,
     List_init (Obj s) (Val (VBool true)) = Raise ValueError /\
     List_init (Val VNone) (Val (VBool false)) = Raise ValueError /\
     List_init (Obj s) (Val (VBool false))
     = Ok (mkList (Obj s) (Val (VBool false))) /\
     List_init (Val VNone) (Val (VBool true))
     = Ok (mkList (Val VNone) (Val (VBool true)))).
Proof.
  unfold List_init.
  destruct (truthy element_sedes_arg) eqn:He, (truthy empty_arg) eqn:Hm;
    cbn [andb negb]; repeat split; intros; try congruence;
    match goal with
    | H : Ok _ = Ok _ |- _ => injection H as <-; cbn; now rewrite He, Hm
    end.
Qed.

(** ** The codec *)

(** C10: [encode] tests its sedes argument for truth: with any falsy
    argument (the empty string, 0, ...) it neither looks the name up nor
    checks the object, it encodes with the sedes inferred from the value,
    exactly as when the argument is left out; no invalid-sedes error comes
    from that argument. *)
Theorem encode_falsy_sedes_infers obj sedes :
  truthy sedes = false ->
  encode obj sedes = (let* s := infer_sedes obj in serialize s obj) /\
  encode obj sedes = encode obj (Val VNone) /\
  (forall s data,
     infer_sedes obj = Ok s -> serialize s obj = Ok data ->
     encode obj sedes = Ok data).
Proof.
  intros Hf. unfold encode. rewrite Hf. cbn [truthy value_truthy].
  destruct (infer_sedes obj) as [s| |]; cbn [bind call_serialize];
    repeat split; try reflexivity; intros; congruence.
Qed.

(** ** Elements that read past the end of their list *)

(** When the element decoded last ends beyond the end index that the length
    prefix declares, [List.deserialize_segment] still returns: the element
    is kept and the declared end index is reported. *)
Lemma overshoot_is_returned self fuel data start_index element next_index :
  let list_end_index :=
    start_index + LIST_PREFIX_LENGTH +
    from_bytes (slice data start_index (start_index + LIST_PREFIX_LENGTH)) big
  in
  list_end_index <= len data ->
  start_index + LIST_PREFIX_LENGTH < list_end_index ->
  call_deserialize_segment (element_sedes self) fuel data
    (start_index + LIST_PREFIX_LENGTH) = Ok (element, next_index) ->
  list_end_index < next_index ->
  List_deserialize_segment self (S fuel) data start_index
  = Ok (VTuple [element], list_end_index).
Proof.
  intros list_end_index Hlen Hstart Hcall Hover.
  unfold List_deserialize_segment. fold list_end_index.
  destruct (Z.ltb_spec (len data) (start_index + LIST_PREFIX_LENGTH)); [lia|].
  destruct (Z.ltb_spec (len data) list_end_index); [lia|].
  cbn [deserialize_elements].
  destruct (Z.ltb_spec (start_index + LIST_PREFIX_LENGTH) list_end_index);
    [|lia].
  rewrite Hcall. cbn [bind].
  destruct fuel; cbn [deserialize_elements];
    (destruct (Z.ltb_spec next_index list_end_index); [lia|reflexivity]).
Qed.

(** * Further properties of the list sedes and the codec *)

(** ** Slices within bounds *)

Lemma slice_in_bounds {A} (data : list A) i j :
  0 <= i -> i <= j -> j <= len data ->
  slice data i j = firstn (Z.to_nat (j - i)) (skipn (Z.to_nat i) data).
Proof.
  intros Hi Hij Hj. unfold slice, slice_index.
  destruct (Z.ltb_spec i 0); [lia|].
  destruct (Z.ltb_spec j 0); [lia|].
  rewrite !Z.min_l by lia. reflexivity.
Qed.

Lemma slice_len {A} (data : list A) i j :
  0 <= i -> i <= j -> j <= len data -> len (slice data i j) = j - i.
Proof.
  intros Hi Hij Hj. rewrite slice_in_bounds by assumption.
  unfold len in *. rewrite length_take, length_drop. lia.
Qed.

Lemma slice_app {A} (data : list A) i j k :
  0 <= i -> i <= j -> j <= k -> k <= len data ->
  slice data i j ++ slice data j k = slice data i k.
Proof.
  intros Hi Hij Hjk Hk. rewrite !slice_in_bounds by lia.
  replace (Z.to_nat j) with (Z.to_nat i + Z.to_nat (j - i))%nat by lia.
  rewrite <- drop_drop.
  replace (Z.to_nat (k - i)) with (Z.to_nat (j - i) + Z.to_nat (k - j))%nat
    by lia.
  apply take_take_drop.
Qed.

Lemma slice_all {A} (data : list A) : slice data 0 (len data) = data.
Proof.
  rewrite slice_in_bounds by (pose proof (len_nonneg data); lia).
  rewrite Z.sub_0_r. unfold len. rewrite Nat2Z.id. simpl. apply firstn_all.
Qed.

Lemma slice_nil {A} (data : list A) i :
  0 <= i -> i <= len data -> slice data i i = [].
Proof.
  intros Hi Hl. rewrite slice_in_bounds by lia. now rewrite Z.sub_diag.
Qed.

(** A byte string is the conversion of its own value. *)
Lemma to_bytes_from_bytes bs n order :
  n = len bs -> to_bytes (from_bytes bs order) n order = Ok bs.
Proof.
  intros ->. unfold to_bytes, from_bytes.
  pose proof (len_nonneg bs).
  destruct (Z.ltb_spec (len bs) 0); [lia|].
  destruct order.
  - pose proof (le_value_range (rev bs)) as Hr.
    assert (Hl : len (rev bs) = len bs) by (unfold len; now rewrite length_rev).
    rewrite Hl in Hr.
    destruct (Z.ltb_spec (le_value (rev bs)) 0); [lia|].
    destruct (Z.leb_spec (2 ^ (8 * len bs)) (le_value (rev bs))); [lia|].
    unfold len. rewrite Nat2Z.id, <- (length_rev bs), le_digits_value.
    now rewrite rev_involutive.
  - pose proof (le_value_range bs) as Hr.
    destruct (Z.ltb_spec (le_value bs) 0); [lia|].
    destruct (Z.leb_spec (2 ^ (8 * len bs)) (le_value bs)); [lia|].
    unfold len. now rewrite Nat2Z.id, le_digits_value.
Qed.

Lemma from_bytes_range bs order :
  0 <= from_bytes bs order < 2 ^ (8 * len bs).
Proof.
  destruct order; unfold from_bytes.
  - pose proof (le_value_range (rev bs)) as Hr.
    unfold len in *. now rewrite length_rev in Hr.
  - apply le_value_range.
Qed.

(** ** What [List.deserialize_segment] returns *)

Lemma List_deserialize_segment_Ok self fuel data start_index v end_index :
  List_deserialize_segment self fuel data start_index = Ok (v, end_index) ->
  exists l,
    v = VTuple l /\
    end_index =
      start_index + LIST_PREFIX_LENGTH +
      from_bytes
        (slice data start_index (start_index + LIST_PREFIX_LENGTH)) big /\
    start_index + LIST_PREFIX_LENGTH <= len data /\
    end_index <= len data /\
    deserialize_elements fuel (element_sedes self) data
      (start_index + LIST_PREFIX_LENGTH) end_index [] = Ok l.
Proof.
  unfold List_deserialize_segment.
  destruct (Z.ltb_spec (len data) (start_index + LIST_PREFIX_LENGTH));
    [discriminate|].
  match goal with |- (if ?c then _ else _) = _ -> _ =>
    destruct c eqn:E end; [discriminate|].
  apply Z.ltb_ge in E.
  destruct (deserialize_elements _ _ _ _ _ _) as [l| |] eqn:El;
    cbn [bind]; try discriminate.
  intros [= <- <-]. exists l. auto.
Qed.

(** X1: whenever [List.deserialize_segment] returns, the value is a tuple
    and the end index is the one the length prefix declares, whatever the
    elements consumed; it lies within the data and at least
    LIST_PREFIX_LENGTH past the start index. *)
Theorem deserialize_segment_end_index self fuel data start_index v end_index :
  List_deserialize_segment self fuel data start_index = Ok (v, end_index) ->
  (exists l, v = VTuple l) /\
  end_index =
    start_index + LIST_PREFIX_LENGTH +
    from_bytes
      (slice data start_index (start_index + LIST_PREFIX_LENGTH)) big /\
  start_index + LIST_PREFIX_LENGTH <= end_index <= len data.
Proof.
  intros H.
  destruct (List_deserialize_segment_Ok _ _ _ _ _ _ H)
    as (l & -> & -> & Hs & He & _).
  pose proof (from_bytes_range
                (slice data start_index (start_index + LIST_PREFIX_LENGTH)) big).
  split; [eauto|]. split; [reflexivity|]. lia.
Qed.

(** ** Decoding, then encoding *)

(** The elements the loop decodes from an exact element sedes serialize to
    the bytes the loop went over. *)
Lemma deserialize_elements_exact es data list_end_index :
  exact es ->
  forall fuel i acc l,
    0 <= i -> i <= len data ->
    deserialize_elements fuel es data i list_end_index acc = Ok l ->
    exists new j,
      l = acc ++ new /\ i <= j /\ j <= len data /\ list_end_index <= j /\
      join_serialized es new = Ok (slice data i j).
Proof.
  intros Hex fuel. induction fuel as [|fuel IH]; intros i acc l Hi Hl Hrun.
  - cbn [deserialize_elements] in Hrun.
    destruct (Z.ltb_spec i list_end_index); [discriminate|].
    injection Hrun as <-. exists [], i.
    rewrite app_nil_r, slice_nil by lia. repeat split; try lia; reflexivity.
  - cbn [deserialize_elements] in Hrun.
    destruct (Z.ltb_spec i list_end_index).
    + destruct (call_deserialize_segment es fuel data i) as [[el nx]| |] eqn:Ec;
        cbn [bind] in Hrun; try discriminate.
      destruct (Hex _ _ _ _ _ Hi Ec) as ((Hlt & Hle) & Hser).
      destruct (IH nx (acc ++ [el]) l ltac:(lia) Hle Hrun)
        as (new & j & -> & Hnj & Hj & Hej & Hjoin).
      exists (el :: new), j. rewrite <- app_assoc.
      repeat split; try lia; try reflexivity.
      cbn [join_serialized]. rewrite Hser. cbn [bind]. rewrite Hjoin.
      cbn [bind]. now rewrite slice_app by lia.
    + injection Hrun as <-. exists [], i.
      rewrite app_nil_r, slice_nil by lia. repeat split; try lia; reflexivity.
Qed.

(** X2: with an element sedes that decodes exactly what it serializes, every
    byte string that [List.deserialize] accepts is the serialization of the
    value it returns: an accepted input is the one encoding of its value. *)
Theorem decoded_list_reencodes self fuel data v :
  0 <= LIST_PREFIX_LENGTH ->
  exact (element_sedes self) ->
  truthy (empty self) = false \/ v = VTuple [] ->
  List_deserialize self fuel data = Ok v ->
  List_serialize self v = Ok data.
Proof.
  intros Hn Hex Hempty Hdec. unfold List_deserialize in Hdec.
  destruct (List_deserialize_segment self fuel data 0) as [[v0 e]| |] eqn:Hseg;
    cbn [bind] in Hdec; try discriminate.
  destruct (Z.eqb_spec e (len data)) as [->|]; [|discriminate].
  injection Hdec as ->.
  destruct (List_deserialize_segment_Ok _ _ _ _ _ _ Hseg)
    as (l & -> & Hend & Hs & _ & Hrun).
  rewrite !Z.add_0_l in *.
  destruct (deserialize_elements_exact _ _ _ Hex _ _ _ _ Hn Hs Hrun)
    as (new & j & Hl & _ & Hj & Hej & Hjoin).
  cbn [app] in Hl. subst new. assert (j = len data) by lia. subst j.
  set (prefix := slice data 0 LIST_PREFIX_LENGTH) in *.
  assert (Hplen : len prefix = LIST_PREFIX_LENGTH)
    by (unfold prefix; rewrite slice_len; lia).
  rewrite List_serialize_guarded; [|reflexivity|reflexivity|].
  2:{ destruct Hempty as [He|He]; [auto|]. right. now injection He as ->. }
  cbn [iter]. rewrite Hjoin. cbn [bind].
  rewrite slice_len by lia.
  pose proof (from_bytes_range prefix big) as Hr. rewrite Hplen in Hr.
  replace (len data - LIST_PREFIX_LENGTH) with (from_bytes prefix big) by lia.
  destruct (Z.geb_spec (from_bytes prefix big) MAX_LEN_SERIALIZED_LIST_OBJECT);
    [unfold MAX_LEN_SERIALIZED_LIST_OBJECT in *; lia|].
  rewrite to_bytes_from_bytes by congruence. cbn [bind].
  unfold prefix. rewrite slice_app by lia. now rewrite slice_all.
Qed.

(** The fixed-width unsigned integers decode exactly what they serialize,
    move the index forward and need no fuel. *)
Lemma UInt_exact size order : 0 < size -> exact (Obj (UInt size order)).
Proof.
  intros Hs fuel data i v j Hi. cbn. unfold UInt_deserialize_segment.
  destruct (Z.ltb_spec (len data) (i + size)); [discriminate|].
  intros [= <- <-]. split; [lia|].
  unfold UInt_serialize.
  pose proof (from_bytes_range (slice data i (i + size)) order) as Hr.
  assert (Hl : len (slice data i (i + size)) = size)
    by (rewrite slice_len; lia).
  rewrite Hl in Hr.
  destruct (Z.ltb_spec (from_bytes (slice data i (i + size)) order) 0); [lia|].
  destruct (Z.leb_spec (2 ^ (8 * size))
              (from_bytes (slice data i (i + size)) order)); [lia|].
  cbn [orb]. now apply to_bytes_from_bytes.
Qed.

Lemma UInt_advances size order : 0 < size -> advances (Obj (UInt size order)).
Proof.
  intros Hs fuel data i v j. cbn. unfold UInt_deserialize_segment.
  destruct (len data <? i + size); [discriminate|].
  intros [= _ <-]. lia.
Qed.

Lemma UInt_settles size order need : settles (Obj (UInt size order)) need.
Proof.
  intros fuel data i _ _. cbn. unfold UInt_deserialize_segment.
  destruct (len data <? i + size); discriminate.
Qed.

(** ** Termination of the decoding loop *)

Lemma deserialize_elements_settles es need data list_end_index :
  advances es ->
  settles es need ->
  forall fuel i acc,
    0 <= i ->
    (Z.to_nat (list_end_index - i) + need data <= fuel)%nat ->
    deserialize_elements fuel es data i list_end_index acc <> OutOfFuel.
Proof.
  intros Hadv Hset fuel.
  induction fuel as [|fuel IH]; intros i acc Hi Hfuel;
    cbn [deserialize_elements];
    destruct (Z.ltb_spec i list_end_index); try discriminate; try lia.
  destruct (call_deserialize_segment es fuel data i) as [[el nx]| |] eqn:Ec;
    cbn [bind]; try discriminate.
  - pose proof (Hadv _ _ _ _ _ Ec). apply IH; lia.
  - exfalso. apply (Hset fuel data i Hi); [lia|exact Ec].
Qed.

(** X3: the loop of [List.deserialize_segment] comes to an end whenever
    every successful element decode moves the index forward: with fuel for
    one iteration per byte of data, on top of what the elements need, the
    segment decode and [List.deserialize] return or raise. A list sedes with
    a prefix of at least one byte moves the index forward itself, so lists
    of lists end as well. *)
Theorem list_decoding_terminates self need :
  0 <= LIST_PREFIX_LENGTH ->
  advances (element_sedes self) ->
  settles (element_sedes self) need ->
  settles (Obj (List_object self)) (fun data => (length data + need data)%nat) /\
  (forall fuel data,
     (length data + need data <= fuel)%nat ->
     List_deserialize self fuel data <> OutOfFuel) /\
  (1 <= LIST_PREFIX_LENGTH -> advances (Obj (List_object self))).
Proof.
  intros Hn Hadv Hset.
  assert (Hseg : settles (Obj (List_object self))
                   (fun data => (length data + need data)%nat)).
  { intros fuel data i Hi Hfuel.
    cbn [call_deserialize_segment List_object deserialize_segment].
    unfold List_deserialize_segment.
    destruct (Z.ltb_spec (len data) (i + LIST_PREFIX_LENGTH)); [discriminate|].
    match goal with |- (if ?c then _ else _) <> _ =>
      destruct c eqn:E end; [discriminate|].
    apply Z.ltb_ge in E.
    match goal with |- bind ?m _ <> _ => destruct m eqn:Er end;
      cbn [bind]; try discriminate.
    exfalso. revert Er.
    apply (deserialize_elements_settles _ need); try assumption; [lia|].
    unfold len in *. lia. }
  split; [exact Hseg|]. split.
  - intros fuel data Hfuel. unfold List_deserialize.
    specialize (Hseg fuel data 0 ltac:(lia) Hfuel).
    cbn [call_deserialize_segment List_object deserialize_segment] in Hseg.
    destruct (List_deserialize_segment self fuel data 0) as [[v e]| |];
      cbn [bind]; [|discriminate|contradiction].
    destruct (negb (e =? len data)); discriminate.
  - intros Hp fuel data i v j.
    cbn [call_deserialize_segment List_object deserialize_segment].
    intros H.
    destruct (List_deserialize_segment_Ok _ _ _ _ _ _ H)
      as (l & _ & -> & _ & _ & _).
    pose proof (from_bytes_range
                  (slice data i (i + LIST_PREFIX_LENGTH)) big).
    lia.
Qed.

(** ** Sizes *)

Lemma join_serialized_app es xs ys bx by_ :
  join_serialized es xs = Ok bx ->
  join_serialized es ys = Ok by_ ->
  join_serialized es (xs ++ ys) = Ok (bx ++ by_).
Proof.
  revert bx. induction xs as [|x xs IH]; intros bx Hx Hy.
  - injection Hx as <-. exact Hy.
  - cbn [join_serialized app] in *.
    destruct (call_serialize es x) as [b| |]; cbn [bind] in *;
      try discriminate.
    destruct (join_serialized es xs) as [bs| |]; cbn [bind] in *;
      try discriminate.
    injection Hx as <-. rewrite (IH bs eq_refl Hy). cbn [bind].
    now rewrite app_assoc.
Qed.

Lemma join_serialized_fixed es size elements bs :
  (forall e b, In e elements -> call_serialize es e = Ok b -> len b = size) ->
  join_serialized es elements = Ok bs ->
  len bs = size * len elements.
Proof.
  revert bs. induction elements as [|x xs IH]; intros bs Hsize Hjoin.
  - injection Hjoin as <-. unfold len. simpl. lia.
  - cbn [join_serialized] in Hjoin.
    destruct (call_serialize es x) as [b| |] eqn:Eb; cbn [bind] in Hjoin;
      try discriminate.
    destruct (join_serialized es xs) as [bs'| |] eqn:Ej; cbn [bind] in Hjoin;
      try discriminate.
    injection Hjoin as <-.
    rewrite len_app, (Hsize x b (or_introl eq_refl) Eb).
    rewrite (IH bs') by (intros; eauto using in_cons).
    unfold len. cbn [length]. lia.
Qed.

Lemma UInt_serialize_len size order e b :
  call_serialize (Obj (UInt size order)) e = Ok b -> len b = size.
Proof.
  cbn. unfold UInt_serialize. destruct e; try discriminate.
  destruct ((n <? 0) || (2 ^ (8 * size) <=? n)); [discriminate|].
  intros H. now apply to_bytes_Ok in H.
Qed.

(** X4: when the element sedes serializes every element to [size] bytes, a
    serialized list is LIST_PREFIX_LENGTH + size * len(val) bytes long, and
    the product size * len(val) is below MAX_LEN_SERIALIZED_LIST_OBJECT. *)
Theorem fixed_size_list_length self val size data :
  (forall e b, In e (iter val) ->
     call_serialize (element_sedes self) e = Ok b -> len b = size) ->
  List_serialize self val = Ok data ->
  len data = LIST_PREFIX_LENGTH + size * value_len val /\
  size * value_len val < MAX_LEN_SERIALIZED_LIST_OBJECT.
Proof.
  intros Hsize Hser.
  destruct (List_serialize_Ok _ _ _ Hser) as (prefix & s & -> & Hjoin & Hp & Hmax).
  apply to_bytes_Ok in Hp as (_ & _ & Hlen & _).
  pose proof (join_serialized_fixed _ _ _ _ Hsize Hjoin) as Hs.
  unfold value_len. rewrite len_app. lia.
Qed.

(** X5: serializing the concatenation of two sequences gives the element
    data of the first followed by the element data of the second, under a
    prefix that holds the sum of the two byte counts. *)
Theorem list_serialize_concatenation self xs ys dx dy :
  List_serialize self (VList xs) = Ok dx ->
  List_serialize self (VList ys) = Ok dy ->
  (len dx - LIST_PREFIX_LENGTH) + (len dy - LIST_PREFIX_LENGTH)
  < MAX_LEN_SERIALIZED_LIST_OBJECT ->
  exists prefix,
    len prefix = LIST_PREFIX_LENGTH /\
    from_bytes prefix big
    = (len dx - LIST_PREFIX_LENGTH) + (len dy - LIST_PREFIX_LENGTH) /\
    List_serialize self (VList (xs ++ ys))
    = Ok (prefix ++ slice dx LIST_PREFIX_LENGTH (len dx)
                 ++ slice dy LIST_PREFIX_LENGTH (len dy)).
Proof.
  intros Hx Hy Hmax.
  pose proof Hx as Hx'. pose proof Hy as Hy'.
  destruct (List_serialize_Ok _ _ _ Hx) as (px & sx & -> & Hjx & Hpx & _).
  destruct (List_serialize_Ok _ _ _ Hy) as (py & sy & -> & Hjy & Hpy & _).
  apply to_bytes_Ok in Hpx as (Hn & _ & Hlx & _).
  apply to_bytes_Ok in Hpy as (_ & _ & Hly & _).
  assert (Hsx : slice (px ++ sx) LIST_PREFIX_LENGTH (len (px ++ sx)) = sx)
    by (rewrite <- Hlx; apply slice_suffix).
  assert (Hsy : slice (py ++ sy) LIST_PREFIX_LENGTH (len (py ++ sy)) = sy)
    by (rewrite <- Hly; apply slice_suffix).
  rewrite Hsx, Hsy. rewrite !len_app in *.
  replace (len px + len sx - LIST_PREFIX_LENGTH) with (len sx) in * by lia.
  replace (len py + len sy - LIST_PREFIX_LENGTH) with (len sy) in * by lia.
  cbn [iter] in Hjx, Hjy.
  pose proof (len_nonneg sx). pose proof (len_nonneg sy).
  destruct (to_bytes_fits (len sx + len sy) LIST_PREFIX_LENGTH big Hn)
    as [prefix Hp]; [unfold MAX_LEN_SERIALIZED_LIST_OBJECT in Hmax; lia|].
  exists prefix.
  pose proof (to_bytes_Ok _ _ _ _ Hp) as (_ & _ & Hl & Hv).
  split; [exact Hl|]. split; [exact Hv|].
  unfold List_serialize in *. cbn [is_Iterable is_bytes_or_str negb orb] in *.
  assert (He : truthy (empty self) && negb (value_len (VList (xs ++ ys)) =? 0)
               = false).
  { destruct (truthy (empty self)); [|reflexivity]. cbn [andb] in *.
    unfold value_len in *. cbn [iter] in *.
    destruct xs; [|discriminate]. destruct ys; [|discriminate]. reflexivity. }
  rewrite He. cbn [iter].
  rewrite (join_serialized_app _ _ _ _ _ Hjx Hjy). cbn [bind].
  rewrite len_app.
  destruct (Z.geb_spec (len sx + len sy) MAX_LEN_SERIALIZED_LIST_OBJECT);
    [lia|].
  rewrite Hp. reflexivity.
Qed.

(** ** Distinct values, distinct encodings *)

(** Induction on a value, with the property of every element of a list or
    tuple at hand. *)
Lemma value_nested_ind (P : value -> Prop) :
  P VNone ->
  (forall b, P (VBool b)) ->
  (forall n, P (VInt n)) ->
  (forall b, P (VBytes b)) ->
  (forall s, P (VStr s)) ->
  (forall l, Forall P l -> P (VList l)) ->
  (forall l, Forall P l -> P (VTuple l)) ->
  forall v, P v.
Proof.
  intros HNone HBool HInt HBytes HStr HList HTuple.
  fix IH 1.
  intros [ |b|n|b|s|l|l];
    [exact HNone|apply HBool|apply HInt|apply HBytes|apply HStr| | ].
  - apply HList. induction l as [|x xs IHl]; constructor; [apply IH|exact IHl].
  - apply HTuple. induction l as [|x xs IHl]; constructor; [apply IH|exact IHl].
Qed.

(** Two sequences are equal component by component when their elements
    are, pairwise; whether each is a list or a tuple plays no part. *)
Lemma componentwise_eq_sequences xs ys :
  componentwise_eq (VList xs) (VList ys) <-> Forall2 componentwise_eq xs ys.
Proof.
  revert ys. induction xs as [|x xs IH]; intros [|y ys]; cbn.
  - split; [constructor|trivial].
  - split; [contradiction|inversion 1].
  - split; [contradiction|inversion 1].
  - change ((fix all (xs ys : list value) {struct xs} : Prop :=
              match xs, ys with
              | [], [] => True
              | x :: xr, y :: yr => componentwise_eq x y /\ all xr yr
              | _, _ => False
              end) xs ys)
      with (componentwise_eq (VList xs) (VList ys)).
    rewrite IH. split.
    + intros [Hx Hr]. now constructor.
    + inversion 1; subst. auto.
Qed.

Lemma Forall2_common_right {A} (R : A -> A -> Prop) xs :
  Forall (fun x => forall b c, R x b -> R c b -> R x c) xs ->
  forall ys zs, Forall2 R xs ys -> Forall2 R zs ys -> Forall2 R xs zs.
Proof.
  induction 1 as [|x xs Hx _ IH]; intros ys zs Hxy Hzy.
  - inversion Hxy; subst. inversion Hzy; subst. constructor.
  - inversion Hxy; subst. inversion Hzy; subst. constructor; eauto.
Qed.

(** Two values that are both equal, component by component, to a third one
    are so to each other. *)
Lemma componentwise_eq_common a :
  forall b c, componentwise_eq a b -> componentwise_eq c b ->
              componentwise_eq a c.
Proof.
  induction a as [ |ba|na|ba|sa|xs IH|xs IH] using value_nested_ind;
    intros b c Hab Hcb;
    try (cbn in Hab; subst b; destruct c; cbn in Hcb |- *;
         congruence || contradiction).
  - destruct b as [ | | | | |ys|ys]; try (cbn in Hab; contradiction);
      destruct c as [ | | | | |zs|zs]; try (cbn in Hcb; discriminate);
      change (componentwise_eq (VList xs) (VList zs));
      change (componentwise_eq (VList xs) (VList ys)) in Hab;
      change (componentwise_eq (VList zs) (VList ys)) in Hcb;
      rewrite componentwise_eq_sequences in *;
      eapply Forall2_common_right; eauto.
  - destruct b as [ | | | | |ys|ys]; try (cbn in Hab; contradiction);
      destruct c as [ | | | | |zs|zs]; try (cbn in Hcb; discriminate);
      change (componentwise_eq (VList xs) (VList zs));
      change (componentwise_eq (VList xs) (VList ys)) in Hab;
      change (componentwise_eq (VList zs) (VList ys)) in Hcb;
      rewrite componentwise_eq_sequences in *;
      eapply Forall2_common_right; eauto.
Qed.

Lemma elements_ok_componentwise es need vs vs' bss :
  elements_ok es need vs vs' bss -> Forall2 componentwise_eq vs vs'.
Proof.
  induction 1 as [|v v' bs vs vs' bss Hv _ _ IH]; constructor; [|exact IH].
  now destruct Hv as (_ & _ & Heq).
Qed.

(** X6: [List.serialize] is injective up to the difference between a list
    and a tuple: two sequences of elements that round-trip through the
    element sedes and serialize to the same bytes are equal, component by
    component. *)
Theorem list_serialize_injective self need xs xs' bx ys ys' by_ data :
  elements_ok (element_sedes self) need xs xs' bx ->
  elements_ok (element_sedes self) need ys ys' by_ ->
  List_serialize self (VList xs) = Ok data ->
  List_serialize self (VList ys) = Ok data ->
  Forall2 componentwise_eq xs ys.
Proof.
  intros Hxs Hys Hx Hy.
  destruct (List_serialize_Ok _ _ _ Hx) as (px & sx & -> & Hjx & Hpx & _).
  destruct (List_serialize_Ok _ _ _ Hy) as (py & sy & Heq & Hjy & Hpy & _).
  cbn [iter] in Hjx, Hjy.
  rewrite (join_serialized_ok _ _ _ _ _ Hxs) in Hjx. injection Hjx as ->.
  rewrite (join_serialized_ok _ _ _ _ _ Hys) in Hjy. injection Hjy as ->.
  apply to_bytes_Ok in Hpx as (_ & _ & Hlx & _).
  apply to_bytes_Ok in Hpy as (_ & _ & Hly & _).
  apply app_inj_1 in Heq as [_ Hs]; [|unfold len in *; lia]. subst sy.
  pose proof (deserialize_elements_ok _ _ _ _ _ Hxs
                (length xs + length ys + need) [] [] []) as Dx.
  pose proof (deserialize_elements_ok _ _ _ _ _ Hys
                (length xs + length ys + need) [] [] []) as Dy.
  specialize (Dx ltac:(lia)). specialize (Dy ltac:(lia)).
  rewrite Dx in Dy. injection Dy as Hsame.
  apply elements_ok_componentwise in Hxs, Hys. rewrite <- Hsame in Hys.
  eapply Forall2_common_right; [|exact Hxs|exact Hys].
  apply Forall_forall. intros x _. apply componentwise_eq_common.
Qed.

(** ** Errors of the element sedes *)

Lemma join_serialized_error es before element after bs err :
  join_serialized es before = Ok bs ->
  call_serialize es element = Raise err ->
  join_serialized es (before ++ element :: after) = Raise err.
Proof.
  revert bs. induction before as [|x xs IH]; intros bs Hbefore Herr.
  - cbn [app join_serialized]. now rewrite Herr.
  - cbn [app join_serialized] in *.
    destruct (call_serialize es x) as [b| |]; cbn [bind] in *;
      try discriminate.
    destruct (join_serialized es xs) as [bs'| |]; cbn [bind] in *;
      try discriminate.
    now rewrite (IH bs' eq_refl Herr).
Qed.

(** X7: when the serialization of an element raises, [List.serialize]
    raises that exception: the first failing element decides, and no bytes
    are returned for the elements before it. *)
Theorem serialize_element_error self val before element after bs err :
  is_Iterable val = true ->
  is_bytes_or_str val = false ->
  truthy (empty self) = false ->
  iter val = before ++ element :: after ->
  join_serialized (element_sedes self) before = Ok bs ->
  call_serialize (element_sedes self) element = Raise err ->
  List_serialize self val = Raise err.
Proof.
  intros Hit Hbs Hempty Hval Hbefore Herr.
  rewrite List_serialize_guarded by auto.
  now rewrite Hval, (join_serialized_error _ _ _ _ _ _ Hbefore Herr).
Qed.

(** The loop, run over elements that decode, goes on from the index after
    them with the fuel that is left. *)
Lemma deserialize_elements_run es need vs vs' bss :
  elements_ok es need vs vs' bss ->
  forall fuel pre post acc list_end_index,
    len pre + len bss <= list_end_index ->
    (need <= fuel)%nat ->
    deserialize_elements (length vs + fuel) es (pre ++ bss ++ post)
      (len pre) list_end_index acc
    = deserialize_elements fuel es (pre ++ bss ++ post)
        (len pre + len bss) list_end_index (acc ++ vs').
Proof.
  induction 1 as [|v v' bs vs vs' bss Hv Hne Hrest IH];
    intros fuel pre post acc list_end_index Hend Hfuel.
  - change (len (@nil byte)) with 0. now rewrite Z.add_0_r, app_nil_r.
  - destruct Hv as (_ & Hseg & _).
    pose proof (len_pos_of_nonempty bs Hne) as Hpos.
    pose proof (len_nonneg bss) as Hbss.
    rewrite len_app in *.
    cbn [length Nat.add deserialize_elements].
    destruct (Z.ltb_spec (len pre) list_end_index); [|lia].
    rewrite <- (app_assoc bs bss post).
    rewrite Hseg by lia. cbn [bind].
    specialize (IH fuel (pre ++ bs) post (acc ++ [v']) list_end_index).
    rewrite !len_app in IH. rewrite <- !app_assoc in IH.
    rewrite IH by lia. cbn [app]. now rewrite Z.add_assoc.
Qed.

(** X8: when the decoding of an element raises, after any number of
    elements that decoded, [List.deserialize_segment] raises that
    exception; the elements decoded so far are not returned. *)
Theorem deserialize_element_error
    self need vs vs' bss pre prefix rest declared err fuel :
  elements_ok (element_sedes self) need vs vs' bss ->
  to_bytes declared LIST_PREFIX_LENGTH big = Ok prefix ->
  len bss < declared ->
  declared <= len bss + len rest ->
  call_deserialize_segment (element_sedes self) fuel
    (pre ++ prefix ++ bss ++ rest) (len pre + LIST_PREFIX_LENGTH + len bss)
  = Raise err ->
  (need <= fuel)%nat ->
  List_deserialize_segment self (length vs + S fuel)
    (pre ++ prefix ++ bss ++ rest) (len pre)
  = Raise err.
Proof.
  intros Hes Hp Hlt Hle Hcall Hfuel.
  apply to_bytes_Ok in Hp as (Hn & _ & Hlen & Hval).
  unfold List_deserialize_segment.
  pose proof (len_nonneg pre). pose proof (len_nonneg bss).
  pose proof (len_nonneg rest).
  rewrite (slice_middle pre prefix (bss ++ rest)) by congruence.
  rewrite Hval. rewrite !len_app.
  destruct (Z.ltb_spec (len pre + (len prefix + (len bss + len rest)))
              (len pre + LIST_PREFIX_LENGTH)); [lia|].
  destruct (Z.ltb_spec (len pre + (len prefix + (len bss + len rest)))
              (len pre + LIST_PREFIX_LENGTH + declared)); [lia|].
  replace (pre ++ prefix ++ bss ++ rest) with ((pre ++ prefix) ++ bss ++ rest)
    in * by (now rewrite <- !app_assoc).
  replace (len pre + LIST_PREFIX_LENGTH) with (len (pre ++ prefix)) in *
    by (rewrite len_app; lia).
  rewrite (deserialize_elements_run _ _ _ _ _ Hes) by lia.
  cbn [deserialize_elements].
  destruct (Z.ltb_spec (len (pre ++ prefix) + len bss)
              (len (pre ++ prefix) + declared)); [|lia].
  rewrite Hcall. reflexivity.
Qed.

(** X9: the constructor accepts any true value as [element_sedes] without
    checking that it is a sedes. Every list sedes constructed with a value
    that is no sedes ([None] with [empty=True], or a true value) raises
    AttributeError from [deserialize_segment] as soon as the prefix declares
    one byte of data that is there; [serialize] of a non-empty list or
    tuple raises ValueError when [empty] is true and AttributeError when it
    is not. *)
Theorem element_sedes_is_not_checked :
  (forall v0,
     value_truthy v0 = true ->
     List_init (Val v0) (Val (VBool false))
     = Ok (mkList (Val v0) (Val (VBool false)))) /\
  (forall v0 empty_arg self,
     List_init (Val v0) empty_arg = Ok self ->
     (forall val,
        is_Iterable val = true -> is_bytes_or_str val = false ->
        value_len val <> 0 ->
        List_serialize self val
        = if truthy empty_arg then Raise ValueError
          else Raise AttributeError) /\
     (forall fuel data start_index,
        start_index + LIST_PREFIX_LENGTH <= len data ->
        0 < from_bytes
              (slice data start_index (start_index + LIST_PREFIX_LENGTH)) big ->
        start_index + LIST_PREFIX_LENGTH +
          from_bytes
            (slice data start_index (start_index + LIST_PREFIX_LENGTH)) big
        <= len data ->
        List_deserialize_segment self (S fuel) data start_index
        = Raise AttributeError)).
Proof.
  split.
  - intros v0 Ht. unfold List_init. cbn [truthy value_truthy].
    now rewrite Ht.
  - intros v0 empty_arg self Hinit.
    assert (Hself : self = mkList (Val v0) empty_arg).
    { unfold List_init in Hinit.
      destruct (truthy (Val v0) && truthy empty_arg); [discriminate|].
      destruct (negb (truthy (Val v0)) && negb (truthy empty_arg));
        [discriminate|]. now injection Hinit. }
    subst self. split.
    + intros val Hit Hbs Hlen. unfold List_serialize.
      rewrite Hit, Hbs. cbn [negb orb empty element_sedes].
      destruct (Z.eqb_spec (value_len val) 0) as [|_]; [contradiction|].
      destruct (truthy empty_arg); cbn [andb negb]; [reflexivity|].
      unfold value_len in Hlen. destruct (iter val) as [|x xs];
        [unfold len in Hlen; simpl in Hlen; lia|]. reflexivity.
    + intros fuel data start_index Hs Hpos Hend.
      unfold List_deserialize_segment.
      destruct (Z.ltb_spec (len data) (start_index + LIST_PREFIX_LENGTH));
        [lia|].
      match goal with |- (if ?c then _ else _) = _ =>
        destruct c eqn:E end; [apply Z.ltb_lt in E; lia|].
      cbn [deserialize_elements element_sedes].
      match goal with |- bind (if ?c then _ else _) _ = _ =>
        destruct c eqn:E' end; [reflexivity|apply Z.ltb_ge in E'; lia].
Qed.

(** ** The codec and the registry *)

(** X10: a registered name stands for its sedes in [encode] only: [encode]
    with the name is [encode] with the sedes object, the [serialize] of that
    sedes, while [decode] does not look names up and raises AttributeError
    when given the name. *)
Theorem encode_by_name obj name s :
  name <> EmptyString ->
  sedes_by_name !! name = Some s ->
  encode obj (Val (VStr name)) = serialize s obj /\
  encode obj (Val (VStr name)) = encode obj (Obj s) /\
  (forall fuel data,
     decode fuel (VBytes data) (Val (VStr name)) = Raise AttributeError).
Proof.
  intros Hne Hreg. unfold encode.
  assert (Ht : truthy (Val (VStr name)) = true)
    by (destruct name; [congruence|reflexivity]).
  rewrite Ht. cbn [resolve hashable negb truthy]. rewrite Hreg.
  repeat split; reflexivity.
Qed.

(** X11: a true sedes argument that is neither a sedes object nor a
    registered name is refused before anything is serialized or inferred:
    InvalidSedesError, or the TypeError of the registry lookup when the
    argument is unhashable. *)
Theorem encode_rejects_non_sedes obj v :
  value_truthy v = true ->
  (forall name, v = VStr name -> sedes_by_name !! name = None) ->
  encode obj (Val v)
  = if hashable v then Raise InvalidSedesError else Raise TypeError.
Proof.
  intros Ht Hreg. unfold encode. cbn [truthy]. rewrite Ht.
  cbn [resolve]. destruct (hashable v); cbn [negb bind]; [|reflexivity].
  destruct v; try reflexivity.
  rewrite (Hreg s eq_refl). reflexivity.
Qed.

(** ** A list inside other data *)

(** X12: a serialized list decodes in place: wherever its bytes sit in the
    data, [List.deserialize_segment] at their first index returns the
    elements and the index just after them, so that lists can be elements
    of lists. *)
Theorem list_segment_roundtrip self need vs vs' bss pre post fuel :
  truthy (empty self) = false \/ vs = [] ->
  elements_ok (element_sedes self) need vs vs' bss ->
  len bss < MAX_LEN_SERIALIZED_LIST_OBJECT ->
  (length vs + need <= fuel)%nat ->
  exists data,
    List_serialize self (VList vs) = Ok data /\
    List_deserialize_segment self fuel (pre ++ data ++ post) (len pre)
    = Ok (VTuple vs', len pre + len data).
Proof.
  intros Hempty Hes Hmax Hfuel.
  destruct (List_encodes self need vs vs' bss (VList vs) Hempty
              (or_introl eq_refl) Hes Hmax) as (prefix & _ & Hser & Hseg & _).
  exists (prefix ++ bss). split; [exact Hser|].
  exact (Hseg fuel pre post Hfuel).
Qed.

End SSZ.

(** * The properties at concrete inputs *)

(** A list of lists of uint32 with a four-byte length prefix: the value
    [[1, 2], [3]] comes back as ((1, 2), (3,)). *)
Lemma list_roundtrip_witness :
  let inner := List_object 4 (uint32_list big) in
  let outer := List_object 4 (mkList (Obj inner) (Val (VBool false))) in
  let val := VList [VList [VInt 1; VInt 2]; VList [VInt 3]] in
  let decoded := VTuple [VTuple [VInt 1; VInt 2]; VTuple [VInt 3]] in
  exists data,
    encode ∅ (fun _ => Raise TypeError) val (Obj outer) = Ok data /\
    decode 4 (VBytes data) (Obj outer) = Ok decoded /\
    componentwise_eq val decoded.
Proof.
  cbv zeta.
  destruct (UInt_encodes 4 big 1 [x00; x00; x00; x01]) as [E1 N1];
    [lia|reflexivity|].
  destruct (UInt_encodes 4 big 2 [x00; x00; x00; x02]) as [E2 N2];
    [lia|reflexivity|].
  destruct (UInt_encodes 4 big 3 [x00; x00; x00; x03]) as [E3 N3];
    [lia|reflexivity|].
  pose proof (elements_cons _ _ _ _ _ _ _ _ E1 N1
                (elements_cons _ _ _ _ _ _ _ _ E2 N2 (elements_nil _ _)))
    as In12.
  pose proof (elements_cons _ _ _ _ _ _ _ _ E3 N3 (elements_nil _ _)) as In3.
  destruct (List_encodes 4 (uint32_list big) 0 _ _ _
              (VList [VInt 1; VInt 2]) (or_introl eq_refl)
              (or_introl eq_refl) In12) as (p12 & Hp12 & L12);
    [vm_compute; reflexivity|].
  destruct (List_encodes 4 (uint32_list big) 0 _ _ _
              (VList [VInt 3]) (or_introl eq_refl)
              (or_introl eq_refl) In3) as (p3 & Hp3 & L3);
    [vm_compute; reflexivity|].
  injection Hp12 as <-. injection Hp3 as <-.
  apply (proj1 (list_roundtrip 4 ∅ (fun _ => Raise TypeError))
           (mkList (Obj (List_object 4 (uint32_list big))) (Val (VBool false)))
           2%nat
           [VList [VInt 1; VInt 2]; VList [VInt 3]]
           [VTuple [VInt 1; VInt 2]; VTuple [VInt 3]]
           (([x00; x00; x00; x08] ++
             [x00; x00; x00; x01] ++ [x00; x00; x00; x02] ++ []) ++
            ([x00; x00; x00; x04] ++ [x00; x00; x00; x03] ++ []) ++ [])).
  - left. reflexivity.
  - left. reflexivity.
  - apply elements_cons; [exact L12|discriminate|].
    apply elements_cons; [|discriminate|apply elements_nil].
    destruct L3 as (S3 & D3 & C3). split; [exact S3|split; [|exact C3]].
    intros fuel pre post Hfuel. apply D3. simpl in *. lia.
  - vm_compute. reflexivity.
  - simpl. lia.
Defined.

(** [1, 2, 3] as a list of uint32: the prefix reads 12, the number of bytes
    of element data, where the list has 3 elements. *)
Lemma list_prefix_is_byte_length_witness :
  let data :=
    [x00; x00; x00; x0c;
     x00; x00; x00; x01; x00; x00; x00; x02; x00; x00; x00; x03] in
  List_serialize 4 (uint32_list big) (VList [VInt 1; VInt 2; VInt 3])
  = Ok data /\
  from_bytes (slice data 0 4) big = 12 /\
  exists elements_data,
    join_serialized (Obj (uint32 big)) [VInt 1; VInt 2; VInt 3]
    = Ok elements_data /\
    len (slice data 0 4) = 4 /\
    slice data 4 (len data) = elements_data /\
    from_bytes (slice data 0 4) big = len (slice data 4 (len data)).
Proof.
  cbv zeta. split; [reflexivity|]. split; [reflexivity|].
  apply (list_prefix_is_byte_length 4 (uint32_list big)
           (VList [VInt 1; VInt 2; VInt 3])).
  reflexivity.
Defined.

(** The first seven bytes of the encoding of [1, 2, 3] are rejected, both
    by the sedes and through [decode]. *)
Lemma truncated_list_is_rejected_witness :
  let data :=
    [x00; x00; x00; x0c;
     x00; x00; x00; x01; x00; x00; x00; x02; x00; x00; x00; x03] in
  List_serialize 4 (uint32_list big) (VList [VInt 1; VInt 2; VInt 3])
  = Ok data /\
  List_deserialize 4 (uint32_list big) 3 (firstn 7 data)
  = Raise DeserializationError /\
  decode 3 (VBytes (firstn 7 data)) (Obj (List_object 4 (uint32_list big)))
  = Raise DeserializationError.
Proof.
  cbv zeta. split; [reflexivity|].
  apply (proj2 (proj2 (truncated_list_is_rejected 4))
           (uint32_list big) (VList [VInt 1; VInt 2; VInt 3])).
  - reflexivity.
  - simpl. lia.
Defined.

(** The encoding of [1, 2, 3] followed by one more byte is rejected. *)
Lemma trailing_bytes_are_rejected_witness :
  let data :=
    [x00; x00; x00; x0c;
     x00; x00; x00; x01; x00; x00; x00; x02; x00; x00; x00; x03] in
  List_serialize 4 (uint32_list big) (VList [VInt 1; VInt 2; VInt 3])
  = Ok data /\
  List_deserialize 4 (uint32_list big) 3 (data ++ [xff])
  = Raise DeserializationError.
Proof.
  cbv zeta. split; [reflexivity|].
  destruct (UInt_encodes 4 big 1 [x00; x00; x00; x01]) as [E1 N1];
    [lia|reflexivity|].
  destruct (UInt_encodes 4 big 2 [x00; x00; x00; x02]) as [E2 N2];
    [lia|reflexivity|].
  destruct (UInt_encodes 4 big 3 [x00; x00; x00; x03]) as [E3 N3];
    [lia|reflexivity|].
  pose proof (elements_cons _ _ _ _ _ _ _ _ E1 N1
                (elements_cons _ _ _ _ _ _ _ _ E2 N2
                   (elements_cons _ _ _ _ _ _ _ _ E3 N3 (elements_nil _ _))))
    as Hes.
  destruct (proj2 (trailing_bytes_are_rejected 4)
              (uint32_list big) (VList [VInt 1; VInt 2; VInt 3])
              [x00; x00; x00; x0c;
               x00; x00; x00; x01; x00; x00; x00; x02; x00; x00; x00; x03]
              [xff] eq_refl ltac:(discriminate)) as (_ & _ & Hrej).
  apply (Hrej 0%nat _ _ 3%nat Hes). simpl. lia.
Defined.

(** With a one-byte length prefix the limit is 256 bytes: 256 one-byte
    integers are refused, 255 are serialized in full. *)
Lemma list_length_limit_witness :
  let byte_list := mkList (Obj (UInt 1 big)) (Val (VBool false)) in
  MAX_LEN_SERIALIZED_LIST_OBJECT 1 = 256 /\
  List_serialize 1 byte_list (VList (repeat (VInt 1) 256))
  = Raise SerializationError /\
  exists prefix,
    len prefix = 1 /\
    from_bytes prefix big = len (repeat x01 255) /\
    List_serialize 1 byte_list (VList (repeat (VInt 1) 255))
    = Ok (prefix ++ repeat x01 255).
Proof.
  cbv zeta. split; [reflexivity|]. split.
  - apply (proj1 (list_length_limit 1
                    (mkList (Obj (UInt 1 big)) (Val (VBool false)))
                    (VList (repeat (VInt 1) 256)) (repeat x01 256)
                    eq_refl eq_refl (or_introl eq_refl)
                    ltac:(vm_compute; reflexivity))).
    vm_compute. discriminate.
  - apply (proj2 (list_length_limit 1
                    (mkList (Obj (UInt 1 big)) (Val (VBool false)))
                    (VList (repeat (VInt 1) 255)) (repeat x01 255)
                    eq_refl eq_refl (or_introl eq_refl)
                    ltac:(vm_compute; reflexivity))).
    vm_compute. reflexivity.
Defined.

(** [empty_list = List(empty=True)] with a four-byte length prefix. *)
Lemma empty_list_sentinel_witness :
  List_init (Val VNone) (Val (VBool true)) = Ok empty_list /\
  List_serialize 4 empty_list (VList []) = Ok [x00; x00; x00; x00] /\
  List_serialize 4 empty_list (VTuple []) = Ok [x00; x00; x00; x00] /\
  List_serialize 4 empty_list (VList [VInt 1]) = Raise ValueError /\
  List_serialize 4 empty_list (VTuple [VInt 1]) = Raise ValueError /\
  List_deserialize 4 empty_list 0 [x00; x00; x00; x00] = Ok (VTuple []).
Proof.
  destruct (empty_list_sentinel 4 (Val VNone) empty_list ltac:(lia) eq_refl)
    as (_ & Hl & Ht & Hne & Hd).
  split; [reflexivity|].
  split; [exact Hl|]. split; [exact Ht|].
  split; [exact (proj1 (Hne (VInt 1) []))|].
  split; [exact (proj2 (Hne (VInt 1) []))|].
  exact (Hd 0%nat).
Defined.

(** The four ways of calling the constructor with an element sedes or
    [None] and [empty] true or false. *)
Lemma list_construction_witness :
  List_init (Obj (uint32 big)) (Val (VBool true)) = Raise ValueError /\
  List_init (Val VNone) (Val (VBool false)) = Raise ValueError /\
  List_init (Obj (uint32 big)) (Val (VBool false))
  = Ok (mkList (Obj (uint32 big)) (Val (VBool false))) /\
  List_init (Val VNone) (Val (VBool true)) = Ok empty_list.
Proof.
  split; [|split; [|split]].
  - exact (proj1 (list_construction (Obj (uint32 big)) (Val (VBool true))) eq_refl).
  - exact (proj1 (list_construction (Val VNone) (Val (VBool false))) eq_refl).
  - apply (proj1 (proj2 (list_construction (Obj (uint32 big)) (Val (VBool false))))).
    discriminate.
  - apply (proj1 (proj2 (list_construction (Val VNone) (Val (VBool true))))).
    discriminate.
Defined.

(** The empty string as the sedes argument, in a registry that has a sedes
    under that very name: the name is not looked up, the value is encoded
    with the inferred sedes. *)
Lemma encode_falsy_sedes_infers_witness :
  let registry : gmap string Sedes := {[ EmptyString := uint32 big ]} in
  let infer := fun _ : value => Ok (List_object 4 (uint32_list big)) in
  encode registry infer (VList [VInt 1]) (Val (VStr EmptyString))
  = Ok [x00; x00; x00; x04; x00; x00; x00; x01] /\
  encode registry infer (VList [VInt 1]) (Val (VInt 0))
  = Ok [x00; x00; x00; x04; x00; x00; x00; x01].
Proof.
  cbv zeta. split.
  - apply (proj2 (proj2 (encode_falsy_sedes_infers
             {[ EmptyString := uint32 big ]}
             (fun _ => Ok (List_object 4 (uint32_list big)))
             (VList [VInt 1]) (Val (VStr EmptyString)) eq_refl))
             (List_object 4 (uint32_list big))); reflexivity.
  - apply (proj2 (proj2 (encode_falsy_sedes_infers
             {[ EmptyString := uint32 big ]}
             (fun _ => Ok (List_object 4 (uint32_list big)))
             (VList [VInt 1]) (Val (VInt 0)) eq_refl))
             (List_object 4 (uint32_list big))); reflexivity.
Defined.

(** ** An element that reads past the end of its list *)

(** C2: the specification asks for a decode failure when an element sedes
    advances past the end index of its list. The code returns instead. With
    a four-byte prefix and a list of uint32, a prefix that declares two
    bytes of element data is followed by a four-byte element: the element
    ends at index 8, past the end index 6, and the segment decodes to (1,)
    with end index 6. Inside a list of lists the same happens in a complete
    top-level decode: the inner list declares two bytes, its element reads
    four, and the bytes past the inner end are read again as a second,
    empty, inner list. *)
Theorem overshoot_is_accepted :
  let data := [x00; x00; x00; x02; x00; x00; x00; x01] in
  let nested_list :=
    mkList (Obj (List_object 4 (uint32_list big))) (Val (VBool false)) in
  let nested_data :=
    [x00; x00; x00; x0a; x00; x00; x00; x02; x00; x00;
     x00; x00; x00; x00] in
  deserialize_segment (uint32 big) 0 data 4 = Ok (VInt 1, 8) /\
  List_deserialize_segment 4 (uint32_list big) 1 data 0
  = Ok (VTuple [VInt 1], 6) /\
  List_deserialize 4 nested_list 3 nested_data
  = Ok (VTuple [VTuple [VInt 0]; VTuple []]) /\
  decode 3 (VBytes nested_data) (Obj (List_object 4 nested_list))
  = Ok (VTuple [VTuple [VInt 0]; VTuple []]) /\
  List_serialize 4 nested_list (VTuple [VTuple [VInt 0]; VTuple []])
  <> Ok nested_data.
Proof.
  cbv zeta. repeat split; try reflexivity. vm_compute. discriminate.
Qed.

(** * The further properties at concrete inputs *)

(** The segment of [1, 2, 3] at index 2 of a longer buffer: a tuple, and
    the end index 2 + 4 + 12. *)
Lemma deserialize_segment_end_index_witness :
  let data :=
    [xff; xff;
     x00; x00; x00; x0c;
     x00; x00; x00; x01; x00; x00; x00; x02; x00; x00; x00; x03; xff] in
  List_deserialize_segment 4 (uint32_list big) 3 data 2
  = Ok (VTuple [VInt 1; VInt 2; VInt 3], 18) /\
  18 = 2 + 4 + from_bytes (slice data 2 (2 + 4)) big /\
  2 + 4 <= 18 <= len data.
Proof.
  cbv zeta. split; [reflexivity|].
  exact (proj2 (deserialize_segment_end_index 4 (uint32_list big) 3
                  [xff; xff;
                   x00; x00; x00; x0c;
                   x00; x00; x00; x01; x00; x00; x00; x02; x00; x00; x00; x03;
                   xff]
                  2 (VTuple [VInt 1; VInt 2; VInt 3]) 18 eq_refl)).
Defined.

(** The bytes that decode to (1, 2, 3) are the serialization of (1, 2, 3). *)
Lemma decoded_list_reencodes_witness :
  let data :=
    [x00; x00; x00; x0c;
     x00; x00; x00; x01; x00; x00; x00; x02; x00; x00; x00; x03] in
  List_deserialize 4 (uint32_list big) 3 data
  = Ok (VTuple [VInt 1; VInt 2; VInt 3]) /\
  List_serialize 4 (uint32_list big) (VTuple [VInt 1; VInt 2; VInt 3])
  = Ok data.
Proof.
  cbv zeta. split; [reflexivity|].
  apply (decoded_list_reencodes 4 (uint32_list big) 3).
  - lia.
  - apply UInt_exact. lia.
  - left. reflexivity.
  - reflexivity.
Defined.

(** A list of lists of uint32: fuel for one iteration per byte, twice over,
    is enough for any input; here fourteen bytes. *)
Lemma list_decoding_terminates_witness :
  let inner := uint32_list big in
  let outer := mkList (Obj (List_object 4 inner)) (Val (VBool false)) in
  let data :=
    [x00; x00; x00; x0a; x00; x00; x00; x02; x00; x00;
     x00; x00; x00; x00] in
  List_deserialize 4 outer 28 data
  = Ok (VTuple [VTuple [VInt 0]; VTuple []]) /\
  List_deserialize 4 outer 28 data <> OutOfFuel.
Proof.
  cbv zeta. split; [reflexivity|].
  destruct (list_decoding_terminates 4 (uint32_list big) (fun _ => 0%nat))
    as (Hsettles & _ & Hadvances).
  - lia.
  - apply UInt_advances. lia.
  - apply UInt_settles.
  - apply (proj1 (proj2 (list_decoding_terminates 4
               (mkList (Obj (List_object 4 (uint32_list big)))
                  (Val (VBool false)))
               (fun data => (length data + 0)%nat)
               ltac:(lia) (Hadvances ltac:(lia)) Hsettles))).
    simpl. lia.
Defined.

(** Three uint32: 4 + 4 * 3 bytes. *)
Lemma fixed_size_list_length_witness :
  let data :=
    [x00; x00; x00; x0c;
     x00; x00; x00; x01; x00; x00; x00; x02; x00; x00; x00; x03] in
  List_serialize 4 (uint32_list big) (VList [VInt 1; VInt 2; VInt 3])
  = Ok data /\
  len data = 4 + 4 * 3 /\
  4 * 3 < MAX_LEN_SERIALIZED_LIST_OBJECT 4.
Proof.
  cbv zeta. split; [reflexivity|].
  apply (fixed_size_list_length 4 (uint32_list big)
           (VList [VInt 1; VInt 2; VInt 3]) 4).
  - intros e b _. apply UInt_serialize_len.
  - reflexivity.
Defined.

(** [1] followed by [2, 3]. *)
Lemma list_serialize_concatenation_witness :
  exists prefix,
    len prefix = 4 /\
    from_bytes prefix big = 4 + 8 /\
    List_serialize 4 (uint32_list big) (VList [VInt 1; VInt 2; VInt 3])
    = Ok (prefix ++ [x00; x00; x00; x01]
                 ++ [x00; x00; x00; x02; x00; x00; x00; x03]).
Proof.
  apply (list_serialize_concatenation 4 (uint32_list big)
           [VInt 1] [VInt 2; VInt 3]
           [x00; x00; x00; x04; x00; x00; x00; x01]
           [x00; x00; x00; x08; x00; x00; x00; x02; x00; x00; x00; x03]).
  - reflexivity.
  - reflexivity.
  - vm_compute. reflexivity.
Defined.

(** Under a list of lists of uint32 the list [[1]] and the list [(1,)]
    have the same serialization; they are equal component by component. *)
Lemma list_serialize_injective_witness :
  let inner := List_object 4 (uint32_list big) in
  let outer := mkList (Obj inner) (Val (VBool false)) in
  let data :=
    [x00; x00; x00; x08; x00; x00; x00; x04; x00; x00; x00; x01] in
  List_serialize 4 outer (VList [VList [VInt 1]]) = Ok data /\
  List_serialize 4 outer (VList [VTuple [VInt 1]]) = Ok data /\
  Forall2 componentwise_eq [VList [VInt 1]] [VTuple [VInt 1]].
Proof.
  cbv zeta. split; [reflexivity|]. split; [reflexivity|].
  destruct (UInt_encodes 4 big 1 [x00; x00; x00; x01]) as [E1 N1];
    [lia|reflexivity|].
  pose proof (elements_cons _ _ _ _ _ _ _ _ E1 N1 (elements_nil _ _)) as In1.
  destruct (List_encodes 4 (uint32_list big) 0 _ _ _
              (VList [VInt 1]) (or_introl eq_refl)
              (or_introl eq_refl) In1) as (p1 & Hp1 & L1);
    [vm_compute; reflexivity|].
  destruct (List_encodes 4 (uint32_list big) 0 _ _ _
              (VTuple [VInt 1]) (or_introl eq_refl)
              (or_intror eq_refl) In1) as (p2 & Hp2 & L2);
    [vm_compute; reflexivity|].
  injection Hp1 as <-. injection Hp2 as <-.
  assert (Hne : [x00; x00; x00; x04] ++ [x00; x00; x00; x01] ++ []
                <> @nil byte) by discriminate.
  exact (list_serialize_injective 4
           (mkList (Obj (List_object 4 (uint32_list big))) (Val (VBool false)))
           1 _ _ _ _ _ _
           [x00; x00; x00; x08; x00; x00; x00; x04; x00; x00; x00; x01]
           (elements_cons _ _ _ _ _ _ _ _ L1 Hne (elements_nil _ _))
           (elements_cons _ _ _ _ _ _ _ _ L2 Hne (elements_nil _ _))
           eq_refl eq_refl).
Defined.

(** [1, -1, 2] as a list of uint32: the second element is out of range. *)
Lemma serialize_element_error_witness :
  List_serialize 4 (uint32_list big) (VList [VInt 1; VInt (-1); VInt 2])
  = Raise SerializationError.
Proof.
  exact (serialize_element_error 4 (uint32_list big)
           (VList [VInt 1; VInt (-1); VInt 2])
           [VInt 1] (VInt (-1)) [VInt 2] [x00; x00; x00; x01]
           SerializationError eq_refl eq_refl eq_refl eq_refl eq_refl eq_refl).
Defined.

(** A list of lists of uint32 whose second inner list declares nine bytes
    where none are left: the error of the inner list comes out, the first
    inner list (1,) is not returned. *)
Lemma deserialize_element_error_witness :
  let inner := uint32_list big in
  let outer := mkList (Obj (List_object 4 inner)) (Val (VBool false)) in
  List_deserialize_segment 4 outer 3
    [x00; x00; x00; x0c;
     x00; x00; x00; x04; x00; x00; x00; x01;
     x00; x00; x00; x09] 0
  = Raise DeserializationError.
Proof.
  cbv zeta.
  destruct (UInt_encodes 4 big 1 [x00; x00; x00; x01]) as [E1 N1];
    [lia|reflexivity|].
  pose proof (elements_cons _ _ _ _ _ _ _ _ E1 N1 (elements_nil _ _)) as In1.
  destruct (List_encodes 4 (uint32_list big) 0 _ _ _
              (VList [VInt 1]) (or_introl eq_refl)
              (or_introl eq_refl) In1) as (p1 & Hp1 & L1);
    [vm_compute; reflexivity|].
  injection Hp1 as <-.
  assert (Hne : [x00; x00; x00; x04] ++ [x00; x00; x00; x01] ++ []
                <> @nil byte) by discriminate.
  pose proof (elements_cons _ _ _ _ _ _ _ _ L1 Hne (elements_nil _ _)) as Hes.
  exact (deserialize_element_error 4
           (mkList (Obj (List_object 4 (uint32_list big))) (Val (VBool false)))
           1 _ _ _ [] [x00; x00; x00; x0c] [x00; x00; x00; x09] 12
           DeserializationError 1
           Hes eq_refl ltac:(vm_compute; reflexivity)
           ltac:(vm_compute; discriminate) eq_refl ltac:(lia)).
Defined.

(** [empty_list = List(empty=True)] and [List(5)], which the constructor
    accepts: decoding one byte of element data, and serializing [1]. *)
Lemma element_sedes_is_not_checked_witness :
  List_init (Val VNone) (Val (VBool true)) = Ok empty_list /\
  List_deserialize_segment 4 empty_list 1 [x00; x00; x00; x01; xff] 0
  = Raise AttributeError /\
  List_serialize 4 empty_list (VList [VInt 1]) = Raise ValueError /\
  List_init (Val (VInt 5)) (Val (VBool false))
  = Ok (mkList (Val (VInt 5)) (Val (VBool false))) /\
  List_serialize 4 (mkList (Val (VInt 5)) (Val (VBool false))) (VList [VInt 1])
  = Raise AttributeError /\
  List_deserialize_segment 4 (mkList (Val (VInt 5)) (Val (VBool false))) 1
    [x00; x00; x00; x01; xff] 0
  = Raise AttributeError.
Proof.
  destruct (element_sedes_is_not_checked 4) as [Hinit Huse].
  destruct (Huse VNone (Val (VBool true)) empty_list eq_refl) as [Hs0 Hd0].
  destruct (Huse (VInt 5) (Val (VBool false))
              (mkList (Val (VInt 5)) (Val (VBool false))) eq_refl)
    as [Hs5 Hd5].
  split; [reflexivity|].
  split.
  { apply (Hd0 0%nat [x00; x00; x00; x01; xff] 0);
      vm_compute; (discriminate || reflexivity). }
  split.
  { apply (Hs0 (VList [VInt 1]) eq_refl eq_refl). vm_compute. discriminate. }
  split; [exact (Hinit (VInt 5) eq_refl)|].
  split.
  { apply (Hs5 (VList [VInt 1]) eq_refl eq_refl). vm_compute. discriminate. }
  apply (Hd5 0%nat [x00; x00; x00; x01; xff] 0);
    vm_compute; (discriminate || reflexivity).
Defined.

(** The name "u" registered for the list of uint32. *)
Lemma encode_by_name_witness :
  let name := "u"%string in
  let registry : gmap string Sedes :=
    {[ name := List_object 4 (uint32_list big) ]} in
  let infer := fun _ : value => Raise TypeError in
  encode registry infer (VList [VInt 1]) (Val (VStr name))
  = Ok [x00; x00; x00; x04; x00; x00; x00; x01] /\
  decode 1 (VBytes [x00; x00; x00; x04; x00; x00; x00; x01])
    (Obj (List_object 4 (uint32_list big)))
  = Ok (VTuple [VInt 1]) /\
  decode 1 (VBytes [x00; x00; x00; x04; x00; x00; x00; x01]) (Val (VStr name))
  = Raise AttributeError.
Proof.
  cbv zeta.
  destruct (encode_by_name
              {[ "u"%string := List_object 4 (uint32_list big) ]}
              (fun _ => Raise TypeError) (VList [VInt 1])
              ("u"%string) (List_object 4 (uint32_list big))
              ltac:(discriminate) (lookup_singleton_eq _ _))
    as (Henc & _ & Hdec).
  split; [rewrite Henc; reflexivity|].
  split; [reflexivity|apply Hdec].
Defined.

(** The integer 5 and the list [1] as the sedes argument, and a name that
    is not registered. *)
Lemma encode_rejects_non_sedes_witness :
  let registry : gmap string Sedes := ∅ in
  let infer := fun _ : value => Ok (uint32 big) in
  encode registry infer (VBool true) (Val (VInt 5)) = Raise InvalidSedesError /\
  encode registry infer (VBool true) (Val (VList [VInt 1])) = Raise TypeError /\
  encode registry infer (VBool true)
    (Val (VStr ("u"%string)))
  = Raise InvalidSedesError.
Proof.
  cbv zeta. split; [|split].
  - apply (encode_rejects_non_sedes ∅ (fun _ => Ok (uint32 big)) (VBool true)
             (VInt 5) eq_refl). discriminate.
  - apply (encode_rejects_non_sedes ∅ (fun _ => Ok (uint32 big)) (VBool true)
             (VList [VInt 1]) eq_refl). discriminate.
  - apply (encode_rejects_non_sedes ∅ (fun _ => Ok (uint32 big)) (VBool true)
             (VStr ("u"%string)) eq_refl).
    intros name _. apply lookup_empty.
Defined.

(** The list [1, 2] between two other bytes. *)
Lemma list_segment_roundtrip_witness :
  exists data,
    List_serialize 4 (uint32_list big) (VList [VInt 1; VInt 2]) = Ok data /\
    List_deserialize_segment 4 (uint32_list big) 2 ([xff] ++ data ++ [xff]) 1
    = Ok (VTuple [VInt 1; VInt 2], 1 + len data).
Proof.
  destruct (UInt_encodes 4 big 1 [x00; x00; x00; x01]) as [E1 N1];
    [lia|reflexivity|].
  destruct (UInt_encodes 4 big 2 [x00; x00; x00; x02]) as [E2 N2];
    [lia|reflexivity|].
  pose proof (elements_cons _ _ _ _ _ _ _ _ E1 N1
                (elements_cons _ _ _ _ _ _ _ _ E2 N2 (elements_nil _ _)))
    as Hes.
  exact (list_segment_roundtrip 4 (uint32_list big) 0 _ _ _ [xff] [xff] 2
           (or_introl eq_refl) Hes ltac:(vm_compute; reflexivity)
           ltac:(simpl; lia)).
Defined.
